(** * RFQ similarity pipeline (Task B): a shallow embedding of its four stages

    The development follows the Python sources under [src/Task_B] and
    [scripts/Task_B]:

    - [grade_normalizer.py]   : [clean_grade_string], [deduplicate_reference_data],
                                [create_grade_mapping], [join_with_reference],
                                [normalize_grades];
    - [range_parser.py]       : [parse_single_range], [parse_range_strings];
    - [feature_engineering.py]: [interval_overlap_ratio], [categorical_match],
                                [create_dimension_intervals],
                                [standardize_categorical_features],
                                [prepare_grade_properties],
                                [engineer_similarity_features];
    - [similarity_calculator.py]: the three group similarities and
                                [calculate_rfq_similarity];
    - [run.py]                : the stages in sequence, up to the result of
                                the similarity stage.

    Modelling conventions.

    - A Python [str] is a list of Unicode code points ([pystr := list N]).
      String literals of this file are written as UTF-8 text and decoded by [py].
    - A Python [float] is a rational number ([Q]); [None]/[NaN] is [None] of an
      [option].  Rounding, infinities and overflow of IEEE doubles are outside
      the model; results are compared up to [Qeq].
    - A pandas table is a list of rows under a list of column names.  An
      exception that the source catches or lets escape is an explicit error
      value ([res] in the range parser and in the grade join, [outcome] in
      the similarity engine).
    - [difflib.SequenceMatcher.ratio] is a parameter of the model ([ratio]);
      the rest of [get_close_matches] is modelled after the library.
    - The iteration order of a Python [set] of strings depends on the string
      hash seed of the interpreter process, so it is a parameter of the model
      ([set_iter]). *)

From Stdlib Require Import QArith Qminmax Qabs Lqa.
From Stdlib Require Import Ascii NArith Sorting.Permutation Sorting.Sorted.
From stdpp Require Import gmap list strings.

Set Default Proof Using "Type".

(* ===================================================================== *)
(** * Python strings                                                      *)
(* ===================================================================== *)

Module PyStr.

(** A [str] value: its code points. *)
Abbreviation pystr := (list N) (only parsing).

(** ** Literals: UTF-8 decoding of a Rocq string *)

Fixpoint utf8_decode (bs : list N) : pystr :=
  match bs with
  | [] => []
  | b :: rest =>
    if (b <? 128)%N then b :: utf8_decode rest
    else if (b <? 224)%N then
      match rest with
      | b1 :: rest1 => ((b - 192) * 64 + (b1 - 128))%N :: utf8_decode rest1
      | [] => []
      end
    else if (b <? 240)%N then
      match rest with
      | b1 :: b2 :: rest2 =>
        ((b - 224) * 4096 + (b1 - 128) * 64 + (b2 - 128))%N :: utf8_decode rest2
      | _ => []
      end
    else
      match rest with
      | b1 :: b2 :: b3 :: rest3 =>
        ((b - 240) * 262144 + (b1 - 128) * 4096 + (b2 - 128) * 64 + (b3 - 128))%N
          :: utf8_decode rest3
      | _ => []
      end
  end.

Fixpoint bytes_of_string (s : string) : list N :=
  match s with
  | EmptyString => []
  | String a rest => N_of_ascii a :: bytes_of_string rest
  end.

Definition py (s : string) : pystr := utf8_decode (bytes_of_string s).

(** ** Named code points *)

Definition TAB : N := 9.
Definition LF : N := 10.
Definition SPACE : N := 32.
Definition PERCENT : N := 37.
Definition PLUS : N := 43.
Definition DASH : N := 45.
Definition DOT : N := 46.
Definition DEGREE : N := 176.      (* U+00B0 *)
Definition EN_DASH : N := 8211.    (* U+2013 *)
Definition LE_SIGN : N := 8804.    (* U+2264 *)
Definition GE_SIGN : N := 8805.    (* U+2265 *)

(** ** Character classes *)

(** [str.isspace] of one character, which is also [\s] of [re] on [str]
    patterns: the complete Unicode table. *)
Definition isspace (c : N) : bool :=
  ((9 <=? c) && (c <=? 13) || (28 <=? c) && (c <=? 32)
   || (c =? 133) || (c =? 160) || (c =? 5760)
   || (8192 <=? c) && (c <=? 8202)
   || (c =? 8232) || (c =? 8233) || (c =? 8239) || (c =? 8287) || (c =? 12288))%N.

(** ASCII decimal digits.  [\d] and [float] also accept the decimal digits of
    other scripts; the theorems that depend on digits are stated over
    alphabets that hold none of those. *)
Definition isdigit (c : N) : bool := ((48 <=? c) && (c <=? 57))%N.

Definition islower_ascii (c : N) : bool := ((97 <=? c) && (c <=? 122))%N.
Definition isupper_ascii (c : N) : bool := ((65 <=? c) && (c <=? 90))%N.

(** Basic Latin. *)
Definition is_ascii (c : N) : bool := (c <? 128)%N.
Definition ascii_text (s : pystr) : bool := forallb is_ascii s.

(** ** [str] methods *)

(** [s.upper()] on Basic Latin (case mapping of other scripts is not modelled). *)
Definition upper_char (c : N) : N := if islower_ascii c then (c - 32)%N else c.
Definition upper (s : pystr) : pystr := map upper_char s.

Fixpoint lstrip (s : pystr) : pystr :=
  match s with
  | [] => []
  | c :: rest => if isspace c then lstrip rest else s
  end.

Definition rstrip (s : pystr) : pystr := rev (lstrip (rev s)).

(** [s.strip()] *)
Definition strip (s : pystr) : pystr := rstrip (lstrip s).

(** [s.replace(c, '')] for a one-character [c]. *)
Definition remove_char (c : N) (s : pystr) : pystr :=
  List.filter (fun x => negb (x =? c)%N) s.

(** [c in s] for a one-character [c]. *)
Definition contains_char (c : N) (s : pystr) : bool := existsb (N.eqb c) s.

Fixpoint starts_with (p s : pystr) : bool :=
  match p, s with
  | [], _ => true
  | _ :: _, [] => false
  | a :: p', b :: s' => (a =? b)%N && starts_with p' s'
  end.

(** [p in s]: substring test. *)
Fixpoint contains (p s : pystr) : bool :=
  starts_with p s ||
  match s with
  | [] => false
  | _ :: s' => contains p s'
  end.

End PyStr.
Export PyStr.

(* ===================================================================== *)
(** * grade_normalizer.py: cleaning a grade string                        *)
(* ===================================================================== *)

Module GradeClean.

(** The tail of a match of [\+.*$] once the ['+'] is consumed: [.*] runs over
    characters other than line feed, and [$] holds at the end of the text or
    just before a line feed that ends it.  [Some t] is the part of the text
    the match leaves ([t] is empty or that final line feed). *)
Fixpoint dot_star_dollar (s : pystr) : option pystr :=
  match s with
  | [] => Some []
  | c :: rest =>
    if (c =? LF)%N
    then match rest with [] => Some [LF] | _ => None end
    else dot_star_dollar rest
  end.

(** [re.sub(r'\+.*$', '', s)]: the leftmost match is removed; what is left
    after it holds no ['+'], so there is no second match. *)
Fixpoint re_sub_plus_suffix (s : pystr) : pystr :=
  match s with
  | [] => []
  | c :: rest =>
    if (c =? PLUS)%N then
      match dot_star_dollar rest with
      | Some tail => tail
      | None => c :: re_sub_plus_suffix rest
      end
    else c :: re_sub_plus_suffix rest
  end.

(** [re.match(r'^DX\d{2}$', s)]: [$] also holds before a final line feed. *)
Definition re_match_DX2 (s : pystr) : bool :=
  match s with
  | [d; x; d1; d2] =>
    (d =? 68)%N && (x =? 88)%N && isdigit d1 && isdigit d2
  | [d; x; d1; d2; nl] =>
    (d =? 68)%N && (x =? 88)%N && isdigit d1 && isdigit d2 && (nl =? LF)%N
  | _ => false
  end.

(** [clean_grade_string(grade)]; [None] is a value for which [pd.isna] holds. *)
Definition clean_grade_string (grade : option pystr) : option pystr :=
  match grade with
  | None => None
  | Some g =>
    let g := upper (strip g) in
    let g := re_sub_plus_suffix g in
    let g := remove_char DASH (remove_char SPACE g) in
    let g := if re_match_DX2 g then g ++ [68%N] else g in
    Some g
  end.

End GradeClean.
Export GradeClean.

(* ===================================================================== *)
(** * range_parser.py: one range text to (min, max, mid)                  *)
(* ===================================================================== *)

Module RangeParser.

(** The exceptions the parser can meet, and a computation that returns or
    raises. *)
Inductive exn := ValueError | IndexError.

Inductive res (A : Type) :=
| Ok (a : A)
| Raise (e : exn).
Arguments Ok {A} a.
Arguments Raise {A} e.

#[export] Instance res_bind : MBind res := fun A B k m =>
  match m with
  | Ok a => k a
  | Raise e => Raise e
  end.

(** (min_val, max_val, mid_val) *)
Abbreviation triple := (option Q * option Q * option Q)%type (only parsing).
Definition none3 : triple := (None, None, None).

(** [re.sub(r'[A-Za-z%°]', '', s)] *)
Definition is_unit_char (c : N) : bool :=
  isupper_ascii c || islower_ascii c || (c =? PERCENT)%N || (c =? DEGREE)%N.

Definition re_sub_units (s : pystr) : pystr :=
  List.filter (fun c => negb (is_unit_char c)) s.

(** [re.sub(r'\s+', ' ', s)]: every maximal run of whitespace becomes one
    space; [in_run] tells that the previous character was whitespace. *)
Fixpoint collapse_spaces (in_run : bool) (s : pystr) : pystr :=
  match s with
  | [] => []
  | c :: rest =>
    if isspace c
    then if in_run then collapse_spaces true rest
         else SPACE :: collapse_spaces true rest
    else c :: collapse_spaces false rest
  end.

Definition re_sub_spaces (s : pystr) : pystr := collapse_spaces false s.

(** [re.findall(r'[\d.]+', s)]: the maximal runs of digits and dots, left to
    right; [cur] is the run being read, last character first. *)
Definition is_num_char (c : N) : bool := isdigit c || (c =? DOT)%N.

Definition flush (cur : pystr) (k : list pystr) : list pystr :=
  match cur with
  | [] => k
  | _ :: _ => rev cur :: k
  end.

Fixpoint findall_from (cur : pystr) (s : pystr) : list pystr :=
  match s with
  | [] => flush cur []
  | c :: rest =>
    if is_num_char c then findall_from (c :: cur) rest
    else flush cur (findall_from [] rest)
  end.

Definition findall_numbers (s : pystr) : list pystr := findall_from [] s.

(** [float(tok)] for a token of [findall_numbers] (digits and dots only):
    a value when the token has digits and at most one dot, [ValueError]
    otherwise. *)
Definition digits_value (ds : pystr) : N :=
  fold_left (fun acc d => (acc * 10 + (d - 48))%N) ds 0%N.

Fixpoint split_dot (s : pystr) : pystr * option pystr :=
  match s with
  | [] => ([], None)
  | c :: rest =>
    if (c =? DOT)%N then ([], Some rest)
    else let '(ip, fp) := split_dot rest in (c :: ip, fp)
  end.

Definition float_of_token (tok : pystr) : option Q :=
  if negb (forallb is_num_char tok) then None else
  match split_dot tok with
  | (ip, None) =>
    match ip with
    | [] => None
    | _ => Some (Z.of_N (digits_value ip) # 1)
    end
  | (ip, Some fp) =>
    if contains_char DOT fp then None
    else match ip, fp with
         | [], [] => None
         | _, _ =>
           Some (Z.of_N (digits_value (ip ++ fp))
                 # Z.to_pos (10 ^ Z.of_nat (length fp)))
         end
  end.

Definition float (tok : pystr) : res Q :=
  match float_of_token tok with
  | Some q => Ok q
  | None => Raise ValueError
  end.

(** [l[i]] *)
Definition index {A} (l : list A) (i : nat) : res A :=
  match nth_error l i with
  | Some x => Ok x
  | None => Raise IndexError
  end.

Definition has_le (value_str : pystr) : bool :=
  contains_char LE_SIGN value_str || contains [60; 61]%N value_str.

Definition has_ge (value_str : pystr) : bool :=
  contains_char GE_SIGN value_str || contains [62; 61]%N value_str.

Definition has_dash (clean_str : pystr) : bool :=
  contains_char DASH clean_str || contains_char EN_DASH clean_str.

(** The body of the [try] block: [Ok (Some t)] is [return t], [Ok None] is
    leaving the block without a [return]. *)
Definition parse_body (value_str clean_str : pystr) : res (option triple) :=
  if has_le value_str then
    tok ← index (findall_numbers clean_str) 0;
    max_val ← float tok;
    let mid_val := (max_val / 2)%Q in
    Ok (Some (None, Some max_val, Some mid_val))
  else if has_ge value_str then
    tok ← index (findall_numbers clean_str) 0;
    min_val ← float tok;
    Ok (Some (Some min_val, None, None))
  else if has_dash clean_str then
    let numbers := findall_numbers clean_str in
    if (2 <=? length numbers)%nat then
      tok0 ← index numbers 0;
      min_val ← float tok0;
      tok1 ← index numbers 1;
      max_val ← float tok1;
      let mid_val := ((min_val + max_val) / 2)%Q in
      Ok (Some (Some min_val, Some max_val, Some mid_val))
    else Ok None
  else
    let numbers := findall_numbers clean_str in
    match numbers with
    | [] => Ok None
    | _ :: _ =>
      tok ← index numbers 0;
      val ← float tok;
      Ok (Some (None, None, Some val))
    end.

(** The cleaned text the patterns are tried on. *)
Definition clean_text (value_str : pystr) : pystr :=
  strip (re_sub_spaces (re_sub_units value_str)).

(** [parse_single_range(value_str)] *)
Definition parse_single_range (value_str : option pystr) : triple :=
  match value_str with
  | None => none3
  | Some [] => none3
  | Some s =>
    let value_str := strip s in
    let clean_str := clean_text value_str in
    match parse_body value_str clean_str with
    | Ok (Some t) => t
    | Ok None => none3
    | Raise _ => none3
    end
  end.

(** The alphabet of range texts the character classes of the model are exact
    on: Basic Latin and the four symbols the parser names. *)
Definition range_char (c : N) : bool :=
  is_ascii c || (c =? DEGREE)%N || (c =? EN_DASH)%N
  || (c =? LE_SIGN)%N || (c =? GE_SIGN)%N.

Definition range_text (s : pystr) : bool := forallb range_char s.

(** Equality of results up to the value of the numbers. *)
Definition opt_Qeq (a b : option Q) : Prop :=
  match a, b with
  | Some x, Some y => x == y
  | None, None => True
  | _, _ => False
  end.

Definition triple_eq (t u : triple) : Prop :=
  opt_Qeq (fst (fst t)) (fst (fst u))
  /\ opt_Qeq (snd (fst t)) (snd (fst u))
  /\ opt_Qeq (snd t) (snd u).

End RangeParser.
Export RangeParser.

(* ===================================================================== *)
(** * Tables                                                              *)
(* ===================================================================== *)

Module Table.

(** A value of a table: null ([None]/[NaN]), a float or a text. *)
Inductive cell :=
| CNull
| CNum (q : Q)
| CStr (s : list N).

(** [pd.isna(v)] and [pd.notna(v)] *)
Definition isna (v : cell) : bool :=
  match v with
  | CNull => true
  | _ => false
  end.

Definition notna (v : cell) : bool := negb (isna v).

(** [v1 == v2] on scalars; a comparison with [NaN] is false. *)
Definition cell_eq (v1 v2 : cell) : bool :=
  match v1, v2 with
  | CNum a, CNum b => Qeq_bool a b
  | CStr s, CStr t => bool_decide (s = t)
  | _, _ => false
  end.

(** The float of a value of a float64 column.  The columns the pipeline reads
    as numbers are made by arithmetic and by the range parser, so they hold
    floats and nulls only; a text there has no counterpart in the model. *)
Definition num (v : cell) : option Q :=
  match v with
  | CNum q => Some q
  | _ => None
  end.

(** A row gives a value to every column name; a table is its list of column
    names and its rows in order (the positional index [read_csv] gives).  The
    columns a stage reads by name ([id], [grade], [Grade/Material],
    [thickness_center], [width_center]) are columns of its input: the
    [KeyError] of a missing input column is outside the model. *)
Definition row : Type := string -> cell.

Record frame := {
  columns : list string;
  rows : list row
}.

(** [col in df.columns] *)
Definition has_column (cols : list string) (col : string) : bool :=
  existsb (String.eqb col) cols.

(** The row with the given values, null elsewhere. *)
Fixpoint row_of (l : list (string * cell)) : row :=
  fun col =>
    match l with
    | [] => CNull
    | (c, v) :: rest => if String.eqb col c then v else row_of rest col
    end.

(** [sub in col] on column names. *)
Definition name_contains (sub col : string) : bool := contains (py sub) (py col).

End Table.
Export Table.

(* ===================================================================== *)
(** * feature_engineering.py: the two similarity primitives               *)
(* ===================================================================== *)

Module Features.

#[local] Open Scope Q_scope.

Definition Qltb (a b : Q) : bool := negb (Qle_bool b a).

(** [interval_overlap_ratio(min1, max1, min2, max2)] *)
Definition interval_overlap_ratio (min1 max1 min2 max2 : option Q) : Q :=
  match min1, max1, min2, max2 with
  | Some a1, Some b1, Some a2, Some b2 =>
    let min1 := Qmin a1 b1 in
    let max1 := Qmax a1 b1 in
    let min2 := Qmin a2 b2 in
    let max2 := Qmax a2 b2 in
    let overlap := Qmax 0 (Qmin max1 max2 - Qmax min1 min2) in
    let union := Qmax max1 max2 - Qmin min1 min2 in
    if Qltb 0 union then overlap / union else 0
  | _, _, _, _ => 0
  end.

(** [categorical_match(val1, val2)] *)
Definition categorical_match (val1 val2 : cell) : Q :=
  if isna val1 || isna val2 then 0
  else if cell_eq val1 val2 then 1 else 0.

End Features.
Export Features.

(* ===================================================================== *)
(** * similarity_calculator.py                                            *)
(* ===================================================================== *)

Module Similarity.

#[local] Open Scope Q_scope.

(** [np.mean(l)] of a list that is not empty. *)
Definition Qsum (l : list Q) : Q := fold_right Qplus 0 l.

Definition mean (l : list Q) : Q := Qsum l / inject_Z (Z.of_nat (length l)).

(** [np.mean(l) if l else 0.0] *)
Definition mean_or_zero (l : list Q) : Q :=
  match l with
  | [] => 0
  | _ :: _ => mean l
  end.

(** [calculate_dimension_similarity(row1, row2, dimension_features,
    interval_overlap_ratio)]; [index] is [row1.index], the columns of the
    table. *)
Definition calculate_dimension_similarity (index : list string)
    (row1 row2 : row) (dimension_features : list (string * string)) : Q :=
  let similarities :=
    flat_map (fun '(min_col, max_col) =>
      if has_column index min_col && has_column index max_col then
        [interval_overlap_ratio (num (row1 min_col)) (num (row1 max_col))
                                (num (row2 min_col)) (num (row2 max_col))]
      else []) dimension_features in
  mean_or_zero similarities.

(** [calculate_categorical_similarity(row1, row2, categorical_features,
    categorical_match)] *)
Definition calculate_categorical_similarity (index : list string)
    (row1 row2 : row) (categorical_features : list string) : Q :=
  let matches :=
    flat_map (fun cat_feature =>
      if has_column index cat_feature then
        [categorical_match (row1 cat_feature) (row2 cat_feature)]
      else []) categorical_features in
  mean_or_zero matches.

(** [df[col].max()] and [df[col].min()]: nulls are skipped, and a column of
    nulls has none. *)
Definition column_values (df : frame) (col : string) : list Q :=
  omap (fun r => num (r col)) (rows df).

Definition column_max (df : frame) (col : string) : option Q :=
  match column_values df col with
  | [] => None
  | x :: l => Some (fold_left Qmax l x)
  end.

Definition column_min (df : frame) (col : string) : option Q :=
  match column_values df col with
  | [] => None
  | x :: l => Some (fold_left Qmin l x)
  end.

(** [calculate_grade_property_similarity(row1, row2,
    grade_property_features, df)] *)
Definition calculate_grade_property_similarity (index : list string)
    (row1 row2 : row) (grade_property_features : list string) (df : frame) : Q :=
  let similarities :=
    flat_map (fun prop_feature =>
      if has_column index prop_feature then
        match num (row1 prop_feature), num (row2 prop_feature) with
        | Some val1, Some val2 =>
          match column_max df prop_feature, column_min df prop_feature with
          | Some hi, Some lo =>
            let feature_range := hi - lo in
            if Qltb 0 feature_range then
              let normalized_diff := Qabs (val1 - val2) / feature_range in
              let similarity := Qmax 0 (1 - normalized_diff) in
              [similarity]
            else []
          | _, _ => []
          end
        | _, _ => []
        end
      else []) grade_property_features in
  mean_or_zero similarities.

(** The feature groups [calculate_rfq_similarity] reads off the table. *)
Definition all_dimension_features : list (string * string) :=
  [ ("thickness_interval_min", "thickness_interval_max");
    ("width_interval_min", "width_interval_max");
    ("weight_interval_min", "weight_interval_max");
    ("inner_diameter_interval_min", "inner_diameter_interval_max");
    ("length_interval_min", "length_interval_max");
    ("height_interval_min", "height_interval_max") ]%string.

Definition dimension_features_of (feature_df : frame) : list (string * string) :=
  List.filter (fun '(min_col, max_col) =>
    has_column (columns feature_df) min_col
    && has_column (columns feature_df) max_col) all_dimension_features.

Definition categorical_features_of (feature_df : frame) : list string :=
  List.filter (fun col =>
    name_contains "_clean" col && negb (String.eqb col "grade_clean"))
    (columns feature_df).

Definition grade_property_features_of (feature_df : frame) : list string :=
  List.filter (fun col =>
    name_contains "_mid" col
    && existsb (fun r => notna (r col)) (rows feature_df))
    (columns feature_df).

(** The fixed weights. *)
Definition w_dimensions : Q := 0.50.
Definition w_categorical : Q := 0.20.
Definition w_grade_properties : Q := 0.30.

(** One entry of [rfq_similarities]. *)
Record result := {
  rfq_id : cell;
  match_id : cell;
  similarity_score : Q;
  dimension_similarity : Q;
  categorical_similarity : Q;
  property_similarity : Q
}.

(** The test of the "Skip exact duplicates" branch. *)
Definition is_exact_duplicate (row1 row2 : row) : bool :=
  cell_eq (row1 "grade"%string) (row2 "grade"%string)
  && cell_eq (row1 "thickness_center"%string) (row2 "thickness_center"%string)
  && cell_eq (row1 "width_center"%string) (row2 "width_center"%string).

(** The scores of one pair and their weighted sum. *)
Definition score_pair (feature_df : frame) (row1 row2 : row) : result :=
  let index := columns feature_df in
  let dim_sim :=
    calculate_dimension_similarity index row1 row2 (dimension_features_of feature_df) in
  let cat_sim :=
    calculate_categorical_similarity index row1 row2 (categorical_features_of feature_df) in
  let prop_sim :=
    calculate_grade_property_similarity index row1 row2
      (grade_property_features_of feature_df) feature_df in
  let aggregate_score :=
    w_dimensions * dim_sim + w_categorical * cat_sim + w_grade_properties * prop_sim in
  {| rfq_id := row1 "id"%string;
     match_id := row2 "id"%string;
     similarity_score := aggregate_score;
     dimension_similarity := dim_sim;
     categorical_similarity := cat_sim;
     property_similarity := prop_sim |}.

(** [enumerate(l)] *)
Definition enumerate {A} (l : list A) : list (nat * A) := imap (fun i x => (i, x)) l.

(** The inner loop over [idx2]: the scored pairs of the row at [idx1]. *)
Definition pair_scores (feature_df : frame) (valid : list row)
    (idx1 : nat) (row1 : row) : list result :=
  flat_map (fun '(idx2, row2) =>
    if (idx1 =? idx2)%nat then []
    else if is_exact_duplicate row1 row2 then []
    else [score_pair feature_df row1 row2]) (enumerate valid).

(** [l.sort(key=lambda x: x['similarity_score'], reverse=True)]: the sort is
    stable, so its result is the one of this insertion sort, in which an
    entry passes the entries of a strictly greater score only. *)
Fixpoint insert_desc (x : result) (l : list result) : list result :=
  match l with
  | [] => [x]
  | y :: l' =>
    if Qltb (similarity_score x) (similarity_score y)
    then y :: insert_desc x l'
    else x :: y :: l'
  end.

Definition sort_desc (l : list result) : list result :=
  fold_right insert_desc [] l.

(** The rows one source row adds to [similarity_results]. *)
Definition top3_of (rfq_similarities : list result) : list result :=
  match rfq_similarities with
  | [] => []
  | _ :: _ => firstn 3 (sort_desc rfq_similarities)
  end.

Definition rows_of_source (feature_df : frame) (valid : list row) (idx1 : nat)
    : list result :=
  match valid !! idx1 with
  | Some row1 => top3_of (pair_scores feature_df valid idx1 row1)
  | None => []
  end.

(** [range(0, n, batch_size)] *)
Definition batch_size : nat := 50%nat.

Definition batch_starts (n : nat) : list nat :=
  map (fun k => k * batch_size)%nat (seq 0 ((n + batch_size - 1) / batch_size)%nat).

(** The value of [calculate_rfq_similarity]: the result table, or the
    [KeyError] of a column that a table does not have. *)
Inductive outcome :=
| Returned (results : list result)
| KeyError (col : string).

(** [feature_df[feature_df['id'].notna()]] *)
Definition valid_rows (feature_df : frame) : list row :=
  List.filter (fun r => notna (r "id"%string)) (rows feature_df).

(** The accumulation of [similarity_results], batch after batch. *)
Definition similarity_results_of (feature_df : frame) : list result :=
  let valid := valid_rows feature_df in
  let n := length valid in
  flat_map (fun i =>
    let end_i := Nat.min (i + batch_size)%nat n in
    flat_map (rows_of_source feature_df valid) (seq i (end_i - i)%nat))
    (batch_starts n).

(** [calculate_rfq_similarity(feature_df)].  [pd.DataFrame([])] has no
    column, so the summary that reads [results_df['similarity_score']] after
    the loop raises [KeyError] when no pair was scored. *)
Definition calculate_rfq_similarity (feature_df : frame) : outcome :=
  match similarity_results_of feature_df with
  | [] => KeyError "similarity_score"
  | r :: l => Returned (r :: l)
  end.

End Similarity.
Export Similarity.

(* ===================================================================== *)
(** * grade_normalizer.py: deduplication, mapping and join                *)
(* ===================================================================== *)

Module Normalizer.

#[local] Open Scope string_scope.

(** ** Columns *)

(** The text of a value of a text column. *)
Definition text (v : cell) : option (list N) :=
  match v with
  | CStr s => Some s
  | _ => None
  end.

Definition opt_cell (o : option (list N)) : cell :=
  match o with
  | Some s => CStr s
  | None => CNull
  end.

(** [series.apply(clean_grade_string)] on one value.  A grade column is a
    text column: its values are texts and nulls. *)
Definition clean_cell (v : cell) : cell := opt_cell (clean_grade_string (text v)).

(** [series.str.f()] on one value: null where the value is no text. *)
Definition str_method (f : list N -> list N) (v : cell) : cell :=
  opt_cell (f <$> text v).

Definition set_col (col : string) (v : cell) (r : row) : row :=
  fun c => if String.eqb c col then v else r c.

(** [df[col] = values]: the column is replaced, or added at the end. *)
Definition with_column (col : string) (f : row -> cell) (df : frame) : frame :=
  {| columns := if has_column (columns df) col then columns df
                else columns df ++ [col];
     rows := map (fun r => set_col col (f r) r) (rows df) |}.

(** [series.dropna()] of a text column. *)
Definition dropna (df : frame) (col : string) : list (list N) :=
  omap (fun r => text (r col)) (rows df).

(** ** Order of texts: [s < t] on [str] *)

Fixpoint pystr_ltb (s t : list N) : bool :=
  match s, t with
  | _, [] => false
  | [], _ :: _ => true
  | a :: s', b :: t' => (a <? b)%N || ((a =? b)%N && pystr_ltb s' t')
  end.

(** ** [deduplicate_reference_data] *)

(** The first row whose name is shortest: [group.loc[...str.len().idxmin()]].
    Rows whose name is no text are skipped; a group without any named row has
    no such row. *)
Fixpoint shortest_name (best : option (nat * row)) (group : list row)
    : option row :=
  match group with
  | [] => snd <$> best
  | r :: rest =>
    match text (r "Grade/Material") with
    | None => shortest_name best rest
    | Some s =>
      match best with
      | Some (n, _) =>
        if (length s <? n)%nat then shortest_name (Some (length s, r)) rest
        else shortest_name best rest
      | None => shortest_name (Some (length s, r)) rest
      end
    end
  end.

Definition original_clean (r : row) : cell :=
  str_method (remove_char DASH)
    (str_method (remove_char SPACE)
       (str_method upper (r "Grade/Material"))).

(** [select_best_entry(group)] for a group that is not empty. *)
Definition select_best_entry (group : list row) : option row :=
  match group with
  | [] => None
  | [r] => Some r
  | _ :: _ :: _ =>
    let exact_matches :=
      List.filter (fun r => cell_eq (original_clean r) (r "grade_clean")) group in
    match exact_matches with
    | r :: _ => Some r
    | [] => shortest_name None group
    end
  end.

(** The keys of [groupby('grade_clean')]: the distinct texts of the column,
    sorted; null keys are dropped. *)
Fixpoint insert_key (k : list N) (l : list (list N)) : list (list N) :=
  match l with
  | [] => [k]
  | y :: l' => if pystr_ltb y k then y :: insert_key k l' else k :: y :: l'
  end.

Definition sort_keys (l : list (list N)) : list (list N) :=
  fold_right insert_key [] l.

Definition group_keys (df : frame) : list (list N) :=
  sort_keys (remove_dups (dropna df "grade_clean")).

Definition group_of (df : frame) (k : list N) : list row :=
  List.filter (fun r => bool_decide (text (r "grade_clean") = Some k)) (rows df).

(** [deduplicate_reference_data(ref_df)]: one row per key, in key order. *)
Definition deduplicate_reference_data (ref_df : frame) : frame :=
  {| columns := columns ref_df;
     rows := omap (fun k => select_best_entry (group_of ref_df k))
                  (group_keys ref_df) |}.

(** ** [difflib.get_close_matches] and [create_grade_mapping] *)

Section Run.

(** [difflib.SequenceMatcher(None, a, b).ratio()], a function of the two
    texts. *)
Variable ratio : list N -> list N -> Q.

(** The order in which this run of the interpreter iterates the set of the
    given texts; it changes with the hash seed of the process. *)
Variable set_iter : list (list N) -> list (list N).

(** [_calculate_ratio(matches, length)] *)
Definition calculate_ratio (matches len : nat) : Q :=
  if (len =? 0)%nat then 1%Q
  else (2 * inject_Z (Z.of_nat matches) / inject_Z (Z.of_nat len))%Q.

(** [real_quick_ratio()] *)
Definition real_quick_ratio (a b : list N) : Q :=
  calculate_ratio (Nat.min (length a) (length b)) (length a + length b).

(** [quick_ratio()]: the elements of [a] that [b] still has available. *)
Fixpoint take_one (c : N) (avail : list N) : option (list N) :=
  match avail with
  | [] => None
  | x :: rest =>
    if (x =? c)%N then Some rest
    else cons x <$> take_one c rest
  end.

Fixpoint quick_matches (a avail : list N) : nat :=
  match a with
  | [] => 0
  | c :: a' =>
    match take_one c avail with
    | Some avail' => S (quick_matches a' avail')
    | None => quick_matches a' avail
    end
  end.

Definition quick_ratio (a b : list N) : Q :=
  calculate_ratio (quick_matches a b) (length a + length b).

(** The (score, x) entry of [x], when its three ratios reach the cutoff. *)
Definition scored (word : list N) (cutoff : Q) (x : list N)
    : list (Q * list N) :=
  if Qle_bool cutoff (real_quick_ratio x word)
     && Qle_bool cutoff (quick_ratio x word)
     && Qle_bool cutoff (ratio x word)
  then [(ratio x word, x)]
  else [].

(** [best < cand] on (score, text) tuples. *)
Definition tuple_ltb (best cand : Q * list N) : bool :=
  Qltb (fst best) (fst cand)
  || (Qeq_bool (fst best) (fst cand) && pystr_ltb (snd best) (snd cand)).

(** [max(l)]: the first of the greatest entries. *)
Definition tuple_max (l : list (Q * list N)) : option (Q * list N) :=
  match l with
  | [] => None
  | p :: rest =>
    Some (fold_left (fun best cand => if tuple_ltb best cand then cand else best)
                    rest p)
  end.

(** [get_close_matches(word, possibilities, n=1, cutoff)] *)
Definition get_close_matches (word : list N) (possibilities : list (list N))
    (cutoff : Q) : list (list N) :=
  match tuple_max (flat_map (scored word cutoff) possibilities) with
  | Some (_, x) => [x]
  | None => []
  end.

(** The substring fallback: the first reference grade, in iteration order,
    that holds the grade or is held by it. *)
Definition substring_candidate (grade ref_grade : list N) : bool :=
  (4 <=? length grade)%nat
  && (contains grade ref_grade || contains ref_grade grade).

Definition substring_match (grade : list N) (ref_grades : list (list N))
    : option (list N) :=
  find (substring_candidate grade) ref_grades.

(** [create_grade_mapping(rfq_df, ref_df)] *)
Definition create_grade_mapping (rfq_df ref_df : frame)
    : gmap (list N) (list N) :=
  let rfq_grades := set_iter (dropna rfq_df "grade_clean") in
  let ref_grades := set_iter (dropna ref_df "grade_clean") in
  let mapping :=
    fold_left (fun (mapping : gmap (list N) (list N)) grade =>
                 if bool_decide (grade ∈ ref_grades)
                 then <[grade := grade]> mapping
                 else mapping)
              rfq_grades ∅ in
  let unmatched :=
    set_iter (List.filter (fun grade => bool_decide (mapping !! grade = None))
                          rfq_grades) in
  fold_left (fun (mapping : gmap (list N) (list N)) grade =>
               match get_close_matches grade ref_grades 0.8 with
               | m :: _ => <[grade := m]> mapping
               | [] =>
                 match substring_match grade ref_grades with
                 | Some ref_grade => <[grade := ref_grade]> mapping
                 | None => mapping
                 end
               end)
            unmatched mapping.

(** ** [join_with_reference] *)

(** [rfq_df['grade_clean'].map(grade_mapping)] on one value. *)
Definition map_grade (grade_mapping : gmap (list N) (list N)) (v : cell) : cell :=
  match text v with
  | Some g => opt_cell (grade_mapping !! g)
  | None => CNull
  end.

(** Equality of join keys: pandas matches a null key with a null key. *)
Definition key_match (k1 k2 : cell) : bool :=
  match k1, k2 with
  | CNull, CNull => true
  | _, _ => cell_eq k1 k2
  end.

Definition ends_with (suffix s : string) : bool :=
  (String.length suffix <=? String.length s)%nat
  && String.eqb (String.substring (String.length s - String.length suffix)
                           (String.length suffix) s) suffix.

Definition without_suffix (suffix s : string) : option string :=
  if ends_with suffix s
  then Some (String.substring 0 (String.length s - String.length suffix) s)
  else None.

(** The columns of the merge with [suffixes=('', '_ref')]: the left names,
    then the right names, with [_ref] on those the left has too. *)
Definition merged_columns (lcols rcols : list string) : list string :=
  lcols ++ map (fun c => if has_column lcols c then c ++ "_ref" else c) rcols.

(** One row of the merge; [right] is the matching reference row, if any. *)
Definition merge_row (lcols rcols : list string) (left : row)
    (right : option row) : row :=
  fun col =>
    let from_right c :=
      match right with
      | Some r => r c
      | None => CNull
      end in
    if has_column lcols col then left col
    else if has_column rcols col then from_right col
    else match without_suffix "_ref" col with
         | Some c =>
           if has_column lcols c && has_column rcols c then from_right c
           else CNull
         | None => CNull
         end.

(** [left.merge(right, left_on=.., right_on=.., how='left')]: every left row,
    in order, once per matching right row, and once with nulls when none
    matches. *)
Definition merge_left (left right : frame) (left_on right_on : string)
    : list row :=
  flat_map (fun l =>
    match List.filter (fun r => key_match (l left_on) (r right_on)) (rows right) with
    | [] => [merge_row (columns left) (columns right) l None]
    | m :: ms =>
      map (fun r => merge_row (columns left) (columns right) l (Some r)) (m :: ms)
    end) (rows left).

(** The dtype of [grade_mapped].  [Series.map] looks the values up in the
    dict as a Series: an empty dict is a float64 Series, so the column is
    float64 (all [NaN]) exactly when the mapping is empty, and a text column
    otherwise. *)
Definition mapped_is_float (grade_mapping : gmap (list N) (list N)) : bool :=
  (size grade_mapping =? 0)%nat.

Definition no_rows (df : frame) : bool :=
  match rows df with
  | [] => true
  | _ :: _ => false
  end.

(** The test of [merge] on the two key columns: it is skipped when exactly
    one of the tables has no row, and a float64 key is refused against a text
    key ("You are trying to merge on float64 and object columns"). *)
Definition merge_refused (rfq_df ref_df : frame)
    (grade_mapping : gmap (list N) (list N)) : bool :=
  mapped_is_float grade_mapping && Bool.eqb (no_rows rfq_df) (no_rows ref_df).

(** The table the merge and the clean-up give when the merge is not
    refused. *)
Definition enriched_table (rfq_df ref_df : frame) : frame :=
  let enriched_rows := merge_left rfq_df ref_df "grade_mapped" "grade_clean" in
  let enriched_columns := merged_columns (columns rfq_df) (columns ref_df) in
  {| columns := List.filter (fun col => negb (ends_with "_ref" col)) enriched_columns;
     rows := enriched_rows |}.

(** [join_with_reference(rfq_df, ref_df, grade_mapping)] *)
Definition join_with_reference (rfq_df ref_df : frame)
    (grade_mapping : gmap (list N) (list N)) : res frame :=
  let rfq_df :=
    with_column "grade_mapped"
      (fun r => map_grade grade_mapping (r "grade_clean")) rfq_df in
  if merge_refused rfq_df ref_df grade_mapping then Raise ValueError
  else Ok (enriched_table rfq_df ref_df).

(** [normalize_grades(rfq_df, reference_df)] *)
Definition normalize_grades (rfq_df reference_df : frame)
    : res (frame * gmap (list N) (list N)) :=
  let rfq_work := with_column "grade_clean" (fun r => clean_cell (r "grade")) rfq_df in
  let ref_work :=
    with_column "grade_clean" (fun r => clean_cell (r "Grade/Material"))
                reference_df in
  let ref_clean := deduplicate_reference_data ref_work in
  let grade_mapping := create_grade_mapping rfq_work ref_clean in
  enriched_df ← join_with_reference rfq_work ref_clean grade_mapping;
  Ok (enriched_df, grade_mapping).

End Run.

(** What every iteration order of a set satisfies: each element once. *)
Definition set_order (set_iter : list (list N) -> list (list N)) : Prop :=
  forall l, NoDup (set_iter l) /\ forall x, x ∈ set_iter l <-> x ∈ l.

End Normalizer.
Export Normalizer.

(* ===================================================================== *)
(** * range_parser.py: the parsed columns                                 *)
(* ===================================================================== *)

Module RangeColumns.

#[local] Open Scope string_scope.

(** [s.replace(old, new)] for a pattern [old] that is not empty: the
    occurrences are replaced from left to right; [skip] counts the characters
    of an occurrence that are still to be passed. *)
Fixpoint replace_from (old new : string) (skip : nat) (s : string) : string :=
  match s with
  | EmptyString => EmptyString
  | String c rest =>
    match skip with
    | S k => replace_from old new k rest
    | O =>
      if String.prefix old s
      then new ++ replace_from old new (String.length old - 1) rest
      else String c (replace_from old new 0 rest)
    end
  end.

Definition str_replace (old new s : string) : string := replace_from old new 0 s.

Definition chemical_props : list string :=
  [ "Carbon (C)"; "Manganese (Mn)"; "Silicon (Si)"; "Sulfur (S)";
    "Phosphorus (P)"; "Chromium (Cr)"; "Nickel (Ni)"; "Molybdenum (Mo)";
    "Vanadium (V)"; "Copper (Cu)"; "Aluminum (Al)"; "Titanium (Ti)";
    "Niobium (Nb)"; "Boron (B)"; "Nitrogen (N)" ].

Definition mechanical_props : list string :=
  [ "Tensile strength (Rm)"; "Yield strength (Re or Rp0.2)"; "Elongation (A%)" ].

Definition properties_to_parse : list string := chemical_props ++ mechanical_props.

(** [prop.replace('(', '').replace(')', '').replace(' ', '_').replace('/', '_')] *)
Definition prop_clean (prop : string) : string :=
  str_replace "/" "_" (str_replace " " "_" (str_replace ")" "" (str_replace "(" "" prop))).

Definition min_col (prop : string) : string := prop_clean prop ++ "_min".
Definition max_col (prop : string) : string := prop_clean prop ++ "_max".
Definition mid_col (prop : string) : string := prop_clean prop ++ "_mid".

Definition float_cell (o : option Q) : cell :=
  match o with
  | Some q => CNum q
  | None => CNull
  end.

(** [df[col] = ...] on the list of columns. *)
Definition add_column (cols : list string) (col : string) : list string :=
  if has_column cols col then cols else cols ++ [col].

(** The body of the loop for one property that is a column: the range texts
    are parsed first, then the three columns are set.  A property column is a
    text column. *)
Definition parse_property (df : frame) (prop : string) : frame :=
  {| columns := add_column (add_column (add_column (columns df) (min_col prop))
                                       (max_col prop)) (mid_col prop);
     rows := map (fun r =>
               let x := parse_single_range (text (r prop)) in
               set_col (mid_col prop) (float_cell (snd x))
                 (set_col (max_col prop) (float_cell (snd (fst x)))
                    (set_col (min_col prop) (float_cell (fst (fst x))) r)))
             (rows df) |}.

(** [parse_range_strings(enriched_df)] *)
Definition parse_range_strings (enriched_df : frame) : frame :=
  fold_left (fun df_work prop =>
               if has_column (columns df_work) prop
               then parse_property df_work prop
               else df_work)
            properties_to_parse enriched_df.

End RangeColumns.
Export RangeColumns.

(* ===================================================================== *)
(** * feature_engineering.py: the derived columns                         *)
(* ===================================================================== *)

Module FeatureEngineering.

#[local] Open Scope string_scope.

(** [series.fillna(other)] on one value. *)
Definition fillna (v other : cell) : cell := if isna v then other else v.

(** Arithmetic of float64 columns on one value: null when an operand is. *)
Definition cell_op (op : Q -> Q -> Q) (a b : cell) : cell :=
  match num a, num b with
  | Some x, Some y => CNum (op x y)
  | _, _ => CNull
  end.

Definition dimension_pairs : list (string * string) :=
  [ ("thickness_min", "thickness_max");
    ("width_min", "width_max");
    ("length_min", "length_min");
    ("height_min", "height_max");
    ("weight_min", "weight_max");
    ("inner_diameter_min", "inner_diameter_max");
    ("outer_diameter_min", "outer_diameter_max");
    ("yield_strength_min", "yield_strength_max");
    ("tensile_strength_min", "tensile_strength_max") ].

(** [min_col.replace('_min', '').replace('_max', '')] *)
Definition feature_name_of (min_col : string) : string :=
  str_replace "_max" "" (str_replace "_min" "" min_col).

(** The four columns of one pair of columns of the table. *)
Definition add_interval (df : frame) (min_col max_col : string) : frame :=
  let feature_name := feature_name_of min_col in
  let interval_min := feature_name ++ "_interval_min" in
  let interval_max := feature_name ++ "_interval_max" in
  let df := with_column interval_min (fun r => r min_col) df in
  let df := with_column interval_max (fun r => fillna (r max_col) (r min_col)) df in
  let df := with_column (feature_name ++ "_center")
              (fun r => cell_op Qdiv
                          (cell_op Qplus (r interval_min) (r interval_max))
                          (CNum 2)) df in
  with_column (feature_name ++ "_width")
    (fun r => cell_op Qminus (r interval_max) (r interval_min)) df.

(** [create_dimension_intervals(df)] *)
Definition create_dimension_intervals (df : frame) : frame :=
  fold_left (fun df '(min_col, max_col) =>
               if has_column (columns df) min_col && has_column (columns df) max_col
               then add_interval df min_col max_col
               else df)
            dimension_pairs df.

Definition categorical_features : list string :=
  [ "coating"; "finish"; "form"; "surface_type"; "surface_protection" ].

(** [series.fillna('Unknown').str.strip().str.upper()] on one value. *)
Definition standardize_cell (v : cell) : cell :=
  str_method upper (str_method strip (fillna v (CStr (py "Unknown")))).

(** [standardize_categorical_features(df)] *)
Definition standardize_categorical_features (df : frame) : frame :=
  fold_left (fun df cat_feature =>
               if has_column (columns df) cat_feature
               then with_column (cat_feature ++ "_clean")
                      (fun r => standardize_cell (r cat_feature)) df
               else df)
            categorical_features df.

Definition all_property_features : list string :=
  [ "Carbon_C_mid"; "Manganese_Mn_mid"; "Silicon_Si_mid";
    "Sulfur_S_mid"; "Phosphorus_P_mid"; "Chromium_Cr_mid";
    "Nickel_Ni_mid"; "Molybdenum_Mo_mid"; "Vanadium_V_mid";
    "Copper_Cu_mid"; "Aluminum_Al_mid"; "Titanium_Ti_mid";
    "Niobium_Nb_mid"; "Boron_B_mid"; "Nitrogen_N_mid";
    "Tensile_strength_Rm_mid"; "Yield_strength_Re_or_Rp0.2_mid";
    "Elongation_A%_mid" ].

(** [df[col].notna().sum()] *)
Definition count_notna (df : frame) (col : string) : nat :=
  length (List.filter (fun r => notna (r col)) (rows df)).

(** [df.drop(columns=[col], inplace=True)] *)
Definition drop_column (col : string) (df : frame) : frame :=
  {| columns := List.filter (fun c => negb (String.eqb c col)) (columns df);
     rows := rows df |}.

Definition min_coverage : Q := 10.

(** [non_null_count / total_with_ref * 100 if total_with_ref > 0 else 0] *)
Definition coverage_of (non_null_count total_with_ref : nat) : Q :=
  if (0 <? total_with_ref)%nat
  then (inject_Z (Z.of_nat non_null_count) / inject_Z (Z.of_nat total_with_ref)
        * 100)%Q
  else 0%Q.

(** [prepare_grade_properties(df)] *)
Definition prepare_grade_properties (df : frame) : frame :=
  let total_with_ref := count_notna df "Grade/Material" in
  fold_left (fun df feature =>
               if has_column (columns df) feature then
                 let non_null_count := count_notna df feature in
                 let coverage := coverage_of non_null_count total_with_ref in
                 if Qle_bool min_coverage coverage then df
                 else drop_column feature df
               else df)
            all_property_features df.

(** [engineer_similarity_features(enriched_df)]; the two similarity functions
    it attaches to the table are [interval_overlap_ratio] and
    [categorical_match]. *)
Definition engineer_similarity_features (enriched_df : frame) : frame :=
  prepare_grade_properties
    (standardize_categorical_features
       (create_dimension_intervals enriched_df)).

End FeatureEngineering.
Export FeatureEngineering.

(* ===================================================================== *)
(** * run.py: the stages in sequence                                      *)
(* ===================================================================== *)

Module Pipeline.

(** The table [main] hands to [calculate_rfq_similarity], from the two loaded
    tables; [ratio] and [set_iter] are the parameters of the grade mapping. *)
Definition feature_table (ratio : list N -> list N -> Q)
    (set_iter : list (list N) -> list (list N))
    (rfq_df reference_df : frame) : res frame :=
  match normalize_grades ratio set_iter rfq_df reference_df with
  | Ok (enriched_df, _) =>
    let parsed_df := parse_range_strings enriched_df in
    Ok (engineer_similarity_features parsed_df)
  | Raise e => Raise e
  end.

End Pipeline.
Export Pipeline.


(* ===================================================================== *)
(** * Sample feature tables                                               *)
(* ===================================================================== *)

Module Samples.

#[local] Open Scope string_scope.

Definition T (s : string) : cell := CStr (py s).

Definition feature_columns : list string :=
  [ "id"; "grade"; "thickness_interval_min"; "thickness_interval_max";
    "thickness_center"; "width_interval_min"; "width_interval_max";
    "width_center"; "form_clean"; "grade_clean"; "Carbon_C_mid" ].

(** A coil of S235JR, 2 to 4 thick, 1000 to 1200 wide. *)
Definition rfq_a : row :=
  row_of [ ("id", T "rfq-a"); ("grade", T "S235JR"); ("grade_clean", T "S235JR");
           ("thickness_interval_min", CNum 2); ("thickness_interval_max", CNum 4);
           ("thickness_center", CNum 3);
           ("width_interval_min", CNum 1000); ("width_interval_max", CNum 1200);
           ("width_center", CNum 1100);
           ("form_clean", T "COILS"); ("Carbon_C_mid", CNum 0.085) ].

(** Sheets of S355J2. *)
Definition rfq_b : row :=
  row_of [ ("id", T "rfq-b"); ("grade", T "S355J2"); ("grade_clean", T "S355J2");
           ("thickness_interval_min", CNum 3); ("thickness_interval_max", CNum 5);
           ("thickness_center", CNum 4);
           ("width_interval_min", CNum 1100); ("width_interval_max", CNum 1500);
           ("width_center", CNum 1300);
           ("form_clean", T "SHEETS"); ("Carbon_C_mid", CNum 0.1) ].

(** A request with no width: every column but [id] is given by [twin]. *)
Definition twin (id : string) : row :=
  row_of [ ("id", T id); ("grade", T "S235JR"); ("grade_clean", T "S235JR");
           ("thickness_interval_min", CNum 2); ("thickness_interval_max", CNum 4);
           ("thickness_center", CNum 3);
           ("form_clean", T "COILS"); ("Carbon_C_mid", CNum 0.085) ].

(** A row without identifier. *)
Definition no_id : row :=
  row_of [ ("grade", T "DX51D"); ("Carbon_C_mid", CNum 0.2) ].

Definition sample_df : frame :=
  {| columns := feature_columns; rows := [rfq_a; no_id; rfq_b; twin "rfq-c"] |}.

(** Two requests that agree on every column but the identifier. *)
Definition twins_df : frame :=
  {| columns := feature_columns; rows := [twin "rfq-1"; twin "rfq-2"] |}.

(** One request only. *)
Definition single_df : frame :=
  {| columns := feature_columns; rows := [rfq_a] |}.

(** [rfq_a] under another identifier, and tables that hold both. *)
Definition rfq_a2 : row :=
  fun col => if String.eqb col "id" then T "rfq-a2" else rfq_a col.

Definition only_duplicates_df : frame :=
  {| columns := feature_columns; rows := [rfq_a; rfq_a2] |}.

Definition duplicates_df : frame :=
  {| columns := feature_columns; rows := [rfq_a; rfq_a2; rfq_b] |}.

(** The (rfq_id, match_id) pairs of a result table. *)
Definition id_pairs (o : outcome) : option (list (cell * cell)) :=
  match o with
  | Returned results => Some (map (fun r => (rfq_id r, match_id r)) results)
  | KeyError _ => None
  end.

End Samples.
Import Samples.

(* ===================================================================== *)
(** * Sample tables for two runs                                        *)
(* ===================================================================== *)

Module Runs.

#[local] Open Scope string_scope.

(** One request for "S355" and two reference grades that both hold it.  No
    ratio reaches 0.8: 2 * 4 / (4 + 7) is the most a ratio of a text of 4 and
    a text of 7 characters can be. *)
Definition rfq_s355 : frame :=
  {| columns := ["id"; "grade"];
     rows := [ row_of [("id", T "rfq-1"); ("grade", T "S355")] ] |}.

Definition ref_s355 : frame :=
  {| columns := ["Grade/Material"; "Carbon (C)"];
     rows := [ row_of [("Grade/Material", T "S355J2H"); ("Carbon (C)", T "≤0.22")];
               row_of [("Grade/Material", T "S355NLH"); ("Carbon (C)", T "≤0.18")] ] |}.

(** Two iteration orders of sets, as two hash seeds may give them. *)
Definition one_order (l : list (list N)) : list (list N) := remove_dups l.
Definition other_order (l : list (list N)) : list (list N) := rev (remove_dups l).

(** Two requests whose grades are no reference grade, near none and part of
    none: no grade is mapped. *)
Definition rfq_unmapped : frame :=
  {| columns := ["id"; "grade"];
     rows := [ row_of [("id", T "rfq-1"); ("grade", T "XYZ")];
               row_of [("id", T "rfq-2"); ("grade", T "ABC")] ] |}.

Definition ref_s235 : frame :=
  {| columns := ["Grade/Material"; "Carbon (C)"];
     rows := [ row_of [("Grade/Material", T "S235JR"); ("Carbon (C)", T "≤0.17")] ] |}.

(** Cleaned tables for the grade mapping: one request, and two reference
    grades of which one holds the grade of the request; the two orders
    iterate the reference grades in opposite directions. *)
Definition rfq_keys : frame :=
  {| columns := ["grade_clean"];
     rows := [ row_of [("grade_clean", T "S355")] ] |}.

Definition ref_keys : frame :=
  {| columns := ["grade_clean"];
     rows := [ row_of [("grade_clean", T "S355J2H")];
               row_of [("grade_clean", T "DX51D")] ] |}.

End Runs.
Import Runs.

(* ===================================================================== *)
(** * Sample tables as they are loaded                                    *)
(* ===================================================================== *)

Module Requests.

#[local] Open Scope string_scope.

(** Three requests: coils of S355 of no given maximal width, a request for
    "dx51" without width and form, and a request without grade. *)
Definition rfq_table : frame :=
  {| columns := [ "id"; "grade"; "thickness_min"; "thickness_max";
                  "width_min"; "width_max"; "length_min"; "form" ];
     rows :=
       [ row_of [ ("id", T "r1"); ("grade", T "S355J2H");
                  ("thickness_min", CNum 2); ("thickness_max", CNum 4);
                  ("width_min", CNum 1000); ("length_min", CNum 6000);
                  ("form", T " coils ") ];
         row_of [ ("id", T "r2"); ("grade", T "dx51");
                  ("thickness_min", CNum 3); ("thickness_max", CNum 5);
                  ("length_min", CNum 6000) ];
         row_of [ ("id", T "r3"); ("thickness_max", CNum 5);
                  ("length_min", CNum 6000); ("form", T "Coils") ] ] |}.

Definition ref_table : frame :=
  {| columns := [ "Grade/Material"; "Carbon (C)"; "Yield strength (Re or Rp0.2)" ];
     rows :=
       [ row_of [ ("Grade/Material", T "S355J2H"); ("Carbon (C)", T "≤0.22");
                  ("Yield strength (Re or Rp0.2)", T "≥355 MPa") ];
         row_of [ ("Grade/Material", T "DX51D"); ("Carbon (C)", T "≤0.12") ] ] |}.

End Requests.
Import Requests.

(* ===================================================================== *)
(** * Facts about grade cleaning                                          *)
(* ===================================================================== *)

Module GradeCleanFacts.

(** ** The cleaning as the specification words it

    Uppercase and trim; cut at the first ['+']; drop every space and dash;
    append ['D'] to "DX" followed by exactly two digits. *)

Fixpoint before_plus (s : pystr) : pystr :=
  match s with
  | [] => []
  | c :: rest => if (c =? PLUS)%N then [] else c :: before_plus rest
  end.

Definition is_DX2 (s : pystr) : bool :=
  match s with
  | [d; x; d1; d2] => (d =? 68)%N && (x =? 88)%N && isdigit d1 && isdigit d2
  | _ => false
  end.

Definition clean_grade_spec (g : pystr) : pystr :=
  let g := strip (upper g) in
  let g := before_plus g in
  let g := List.filter (fun c => negb ((c =? SPACE)%N || (c =? DASH)%N)) g in
  if is_DX2 g then g ++ [68%N] else g.

(** The part of [clean_grade_string] before the DX rule. *)
Definition clean_core (g : pystr) : pystr :=
  remove_char DASH (remove_char SPACE (re_sub_plus_suffix (upper (strip g)))).

(** Characters a cleaned grade is made of. *)
Definition settled (c : N) : bool :=
  negb (isspace c) && negb (islower_ascii c)
  && negb (c =? PLUS)%N && negb (c =? DASH)%N.

(** Inputs with no whitespace other than the plain space. *)
Definition plain_spaced (c : N) : bool := negb (isspace c) || (c =? SPACE)%N.

(** The character classes as propositions, for [lia]. *)
Lemma isspace_true c :
  isspace c = true <->
  (9 <= c <= 13 \/ 28 <= c <= 32 \/ c = 133 \/ c = 160 \/ c = 5760
   \/ 8192 <= c <= 8202 \/ c = 8232 \/ c = 8233 \/ c = 8239 \/ c = 8287
   \/ c = 12288)%N.
Proof.
  unfold isspace.
  rewrite !orb_true_iff, !andb_true_iff, !N.leb_le, !N.eqb_eq. tauto.
Qed.

Lemma islower_true c : islower_ascii c = true <-> (97 <= c <= 122)%N.
Proof. unfold islower_ascii. now rewrite andb_true_iff, !N.leb_le. Qed.

Lemma isspace_upper_char c : isspace (upper_char c) = isspace c.
Proof.
  unfold upper_char. destruct (islower_ascii c) eqn:L; [|reflexivity].
  apply islower_true in L.
  destruct (isspace (c - 32)) eqn:E1; [apply isspace_true in E1; lia|].
  destruct (isspace c) eqn:E2; [apply isspace_true in E2; lia|reflexivity].
Qed.

Lemma lstrip_upper s : lstrip (upper s) = upper (lstrip s).
Proof.
  induction s as [|c s IH]; cbn [upper map lstrip]; [reflexivity|].
  rewrite isspace_upper_char. destruct (isspace c); [exact IH | reflexivity].
Qed.

Lemma strip_upper s : strip (upper s) = upper (strip s).
Proof.
  unfold strip, rstrip. rewrite lstrip_upper.
  unfold upper at 1. rewrite <- map_rev. fold (upper (rev (lstrip s))).
  rewrite lstrip_upper. unfold upper. now rewrite map_rev.
Qed.

Lemma lstrip_incl s c : In c (lstrip s) -> In c s.
Proof.
  induction s as [|a s IH]; cbn [lstrip]; [tauto|].
  destruct (isspace a); [right; auto | tauto].
Qed.

Lemma strip_incl s c : In c (strip s) -> In c s.
Proof.
  unfold strip, rstrip. intros H.
  apply in_rev, lstrip_incl, in_rev in H. now apply lstrip_incl.
Qed.

Lemma contains_char_cons c a s :
  contains_char c (a :: s) = (c =? a)%N || contains_char c s.
Proof. reflexivity. Qed.

Lemma contains_char_false c s :
  contains_char c s = false <-> ~ In c s.
Proof.
  induction s as [|a s IH]; [cbn; tauto|].
  rewrite contains_char_cons, orb_false_iff, IH, N.eqb_neq.
  cbn [In]. intuition congruence.
Qed.

Lemma dot_star_dollar_no_lf s :
  contains_char LF s = false -> dot_star_dollar s = Some [].
Proof.
  induction s as [|c s IH]; [reflexivity|].
  rewrite contains_char_cons, orb_false_iff, N.eqb_sym. intros [H1 H2].
  cbn [dot_star_dollar]. rewrite H1. auto.
Qed.

Lemma re_sub_plus_no_lf s :
  contains_char LF s = false -> re_sub_plus_suffix s = before_plus s.
Proof.
  induction s as [|c s IH]; [reflexivity|].
  rewrite contains_char_cons, orb_false_iff. intros [_ H].
  cbn [re_sub_plus_suffix before_plus].
  destruct (c =? PLUS)%N.
  - now rewrite dot_star_dollar_no_lf.
  - now rewrite IH.
Qed.

Lemma before_plus_incl s c : In c (before_plus s) -> In c s /\ c <> PLUS.
Proof.
  induction s as [|a s IH]; cbn [before_plus In]; [tauto|].
  destruct (N.eqb_spec a PLUS); cbn [In]; [tauto|].
  intros [->|H]; [tauto|]. apply IH in H. tauto.
Qed.

Lemma remove_two s :
  remove_char DASH (remove_char SPACE s)
  = List.filter (fun c => negb ((c =? SPACE)%N || (c =? DASH)%N)) s.
Proof.
  unfold remove_char. induction s as [|c s IH]; [reflexivity|].
  cbn [List.filter].
  destruct (c =? SPACE)%N; cbn [negb orb List.filter]; [exact IH|].
  destruct (c =? DASH)%N; cbn [negb]; [exact IH | now rewrite IH].
Qed.

Lemma re_match_DX2_no_lf s :
  contains_char LF s = false -> re_match_DX2 s = is_DX2 s.
Proof.
  intros H.
  destruct s as [|a [|b [|c [|d [|e [|f s]]]]]]; try reflexivity.
  cbn [re_match_DX2 is_DX2].
  destruct (N.eqb_spec e LF) as [->|]; [|now rewrite andb_false_r].
  rewrite !contains_char_cons, N.eqb_refl, !orb_true_r in H. discriminate.
Qed.

Lemma upper_char_lf c : upper_char c = LF -> c = LF.
Proof.
  unfold upper_char, LF. destruct (islower_ascii c) eqn:L; [|auto].
  apply islower_true in L. lia.
Qed.

Lemma no_lf_upper_strip g :
  contains_char LF g = false -> contains_char LF (upper (strip g)) = false.
Proof.
  rewrite !contains_char_false. intros H Hin. apply H.
  unfold upper in Hin. apply in_map_iff in Hin as (c & Ec & Hc).
  apply upper_char_lf in Ec. subst c. now apply strip_incl.
Qed.

Lemma no_lf_core g :
  contains_char LF g = false -> contains_char LF (clean_core g) = false.
Proof.
  intros H. pose proof (no_lf_upper_strip g H) as Hu.
  unfold clean_core. rewrite re_sub_plus_no_lf by exact Hu.
  apply contains_char_false. intros Hin.
  unfold remove_char in Hin.
  apply filter_In in Hin as [Hin _]. apply filter_In in Hin as [Hin _].
  apply before_plus_incl in Hin as [Hin _].
  apply contains_char_false in Hu. contradiction.
Qed.

(** On texts without a line feed the source and the specification agree. *)
Lemma clean_grade_string_refines g :
  contains_char LF g = false ->
  clean_grade_string (Some g) = Some (clean_grade_spec g).
Proof.
  intros H. unfold clean_grade_string, clean_grade_spec.
  pose proof (no_lf_core g H) as Hc. unfold clean_core in Hc.
  rewrite re_match_DX2_no_lf by exact Hc.
  rewrite strip_upper, remove_two.
  now rewrite re_sub_plus_no_lf by (now apply no_lf_upper_strip).
Qed.

(** ** Cleaned grades are fixed points of the cleaning *)

Definition plain_grade (g : option pystr) : bool :=
  match g with
  | None => true
  | Some s => forallb (fun c => is_ascii c && plain_spaced c) s
  end.

Lemma settled_inv c :
  settled c = true ->
  isspace c = false /\ islower_ascii c = false /\ c <> PLUS /\ c <> DASH
  /\ c <> SPACE /\ c <> LF.
Proof.
  unfold settled. rewrite !andb_true_iff, !negb_true_iff, !N.eqb_neq.
  intros (((Hs & Hl) & Hp) & Hd). repeat split; auto; intros ->;
    unfold isspace in Hs; cbn in Hs; discriminate.
Qed.

Lemma settled_upper_plain c :
  plain_spaced c = true -> c <> SPACE -> c <> DASH -> c <> PLUS ->
  settled (upper_char c) = true.
Proof.
  unfold plain_spaced, settled. rewrite isspace_upper_char.
  rewrite orb_true_iff, negb_true_iff, N.eqb_eq. intros [Hs|?] H1 H2 H3; [|tauto].
  rewrite Hs. cbn [negb andb]. unfold upper_char, PLUS, DASH, SPACE in *.
  destruct (islower_ascii c) eqn:L.
  - apply islower_true in L.
    replace (islower_ascii (c - 32)) with false.
    2:{ symmetry. destruct (islower_ascii (c - 32)) eqn:E; [|reflexivity].
        apply islower_true in E. lia. }
    cbn [negb andb]. rewrite andb_true_iff, !negb_true_iff, !N.eqb_neq. lia.
  - rewrite L. cbn [negb andb].
    rewrite andb_true_iff, !negb_true_iff, !N.eqb_neq. lia.
Qed.

Lemma core_settled g :
  forallb plain_spaced g = true ->
  Forall (fun c => settled c = true) (clean_core g).
Proof.
  intros H. rewrite forallb_forall in H.
  assert (contains_char LF g = false) as Hlf.
  { apply contains_char_false. intros Hin. apply H in Hin. discriminate. }
  unfold clean_core.
  rewrite re_sub_plus_no_lf by (now apply no_lf_upper_strip).
  rewrite remove_two. apply List.Forall_forall. intros c Hc.
  apply filter_In in Hc as [Hc Hf].
  apply before_plus_incl in Hc as [Hc Hp].
  rewrite negb_true_iff, orb_false_iff, !N.eqb_neq in Hf. destruct Hf as [Hs Hd].
  unfold upper in Hc. apply in_map_iff in Hc as (a & <- & Ha).
  apply strip_incl, H in Ha.
  apply settled_upper_plain; auto.
  - intros ->. apply Hs. unfold upper_char, SPACE.
    destruct (islower_ascii 32) eqn:E; [discriminate | reflexivity].
  - intros ->. apply Hd. reflexivity.
  - intros ->. apply Hp. reflexivity.
Qed.

Lemma lstrip_settled t :
  Forall (fun c => settled c = true) t -> lstrip t = t.
Proof.
  intros [|c l Hc _]; [reflexivity|].
  apply settled_inv in Hc as (Hs & _). cbn [lstrip]. now rewrite Hs.
Qed.

Lemma strip_settled t :
  Forall (fun c => settled c = true) t -> strip t = t.
Proof.
  intros H. unfold strip, rstrip. rewrite (lstrip_settled t H).
  rewrite lstrip_settled; [apply rev_involutive|].
  apply List.Forall_forall. intros c Hc. apply in_rev in Hc.
  rewrite List.Forall_forall in H. auto.
Qed.

Lemma core_of_settled t :
  Forall (fun c => settled c = true) t -> clean_core t = t.
Proof.
  intros H. unfold clean_core. rewrite (strip_settled t H).
  induction H as [|c l Hc Hl IH]; [reflexivity|].
  apply settled_inv in Hc as (_ & Hlow & Hp & Hd & Hs & _).
  assert (upper_char c = c) as Eu by (unfold upper_char; now rewrite Hlow).
  apply N.eqb_neq in Hp, Hd, Hs.
  cbn [upper map re_sub_plus_suffix]. rewrite Eu, Hp.
  unfold remove_char in *. cbn [List.filter]. rewrite Hs. cbn [negb List.filter].
  rewrite Hd. cbn [negb]. f_equal. exact IH.
Qed.

Lemma clean_grade_string_core g :
  clean_grade_string (Some g)
  = Some (if re_match_DX2 (clean_core g) then clean_core g ++ [68%N]
          else clean_core g).
Proof. reflexivity. Qed.

Lemma re_match_DX2_appended t :
  Forall (fun c => settled c = true) t ->
  re_match_DX2 t = true -> re_match_DX2 (t ++ [68%N]) = false.
Proof.
  intros H M.
  destruct t as [|a [|b [|c [|d [|e [|f t]]]]]]; try discriminate.
  - cbn [app re_match_DX2]. now rewrite andb_false_r.
  - exfalso. cbn [re_match_DX2] in M. rewrite !andb_true_iff in M.
    destruct M as (_ & M). apply N.eqb_eq in M. subst e.
    do 4 apply Forall_inv_tail in H. apply Forall_inv in H. discriminate.
Qed.

End GradeCleanFacts.
Import GradeCleanFacts.

(** C4 (as amended).  [clean_grade_string] maps a null grade to [None] and the
    empty string to the empty string; on every Basic Latin text without a line
    feed it uppercases and trims, cuts the suffix that starts at the first
    ['+'], removes all spaces and dashes and appends ['D'] to "DX" plus exactly
    two digits; "dx51" becomes "DX51D" and "S355JR+N" becomes "S355JR". *)
Theorem clean_grade_string_amended :
  clean_grade_string None = None
  /\ clean_grade_string (Some []) = Some []
  /\ (forall g : pystr,
        ascii_text g = true -> contains_char LF g = false ->
        clean_grade_string (Some g) = Some (clean_grade_spec g))
  /\ clean_grade_string (Some (py "dx51")) = Some (py "DX51D")
  /\ clean_grade_string (Some (py "S355JR+N")) = Some (py "S355JR").
Proof.
  repeat split; try reflexivity.
  intros g _ Hlf. now apply clean_grade_string_refines.
Qed.

(** The general rule of C4 at a grade with spaces, a dash and a suffix. *)
Lemma clean_grade_string_amended_witness :
  clean_grade_string (Some (py " s 235-jr +qt "))
  = Some (clean_grade_spec (py " s 235-jr +qt ")).
Proof.
  apply (proj1 (proj2 (proj2 clean_grade_string_amended))); reflexivity.
Defined.

(** C4 fails as stated: the empty string is not a null value, so it is cleaned
    to the empty string; and a ['+'] that a line feed follows starts no
    suffix for [\+.*$], so "A+B<LF>C" keeps its ['+']. *)
Lemma clean_grade_string_empty_and_multiline :
  clean_grade_string (Some []) = Some []
  /\ clean_grade_string (Some []) <> None
  /\ clean_grade_string (Some (py "A+B" ++ [LF] ++ py "C"))
     = Some (py "A+B" ++ [LF] ++ py "C").
Proof. repeat split; try reflexivity. discriminate. Qed.

(** C10 (as amended).  On a null grade and on every Basic Latin text whose
    only whitespace is the plain space, cleaning twice is cleaning once. *)
Theorem clean_grade_string_idempotent_plain (g : option pystr) :
  plain_grade g = true ->
  clean_grade_string (clean_grade_string g) = clean_grade_string g.
Proof.
  destruct g as [s|]; [|reflexivity].
  cbn [plain_grade]. intros H.
  assert (forallb plain_spaced s = true) as Hp.
  { rewrite forallb_forall in *. intros c Hc. apply H in Hc.
    now apply andb_true_iff in Hc. }
  pose proof (core_settled s Hp) as Hset.
  rewrite (clean_grade_string_core s).
  destruct (re_match_DX2 (clean_core s)) eqn:M.
  - assert (Forall (fun c => settled c = true) (clean_core s ++ [68%N])) as Hout.
    { apply Forall_app. split; [exact Hset|]. now repeat constructor. }
    rewrite clean_grade_string_core, (core_of_settled _ Hout).
    now rewrite re_match_DX2_appended.
  - rewrite clean_grade_string_core, (core_of_settled _ Hset). now rewrite M.
Qed.

Lemma clean_grade_string_idempotent_plain_witness :
  clean_grade_string (clean_grade_string (Some (py " dx-51 +z")))
  = clean_grade_string (Some (py " dx-51 +z")).
Proof. apply clean_grade_string_idempotent_plain. reflexivity. Defined.

(** C10 fails as stated: a tab before the ['+'] suffix survives the first
    cleaning at the end of the grade, and the second cleaning trims it. *)
Lemma clean_grade_string_not_idempotent :
  clean_grade_string (Some [65; TAB; PLUS; 78]%N) = Some [65; TAB]%N
  /\ clean_grade_string (clean_grade_string (Some [65; TAB; PLUS; 78]%N))
     = Some [65%N]
  /\ clean_grade_string (clean_grade_string (Some [65; TAB; PLUS; 78]%N))
     <> clean_grade_string (Some [65; TAB; PLUS; 78]%N).
Proof. repeat split; try reflexivity. discriminate. Qed.

(* ===================================================================== *)
(** * Facts about the range parser                                        *)
(* ===================================================================== *)

Module RangeParserFacts.

(** What [parse_single_range] does on a text that is not empty. *)
Lemma parse_single_range_nonempty s :
  s <> [] ->
  parse_single_range (Some s)
  = match parse_body (strip s) (clean_text (strip s)) with
    | Ok (Some t) => t
    | _ => none3
    end.
Proof.
  destruct s as [|c s]; [congruence|]. intros _.
  cbn [parse_single_range].
  destruct (parse_body _ _) as [[t|]|e]; reflexivity.
Qed.

Lemma float_some t m : float_of_token t = Some m -> float t = Ok m.
Proof. unfold float. now intros ->. Qed.

Lemma float_none t : float_of_token t = None -> float t = Raise ValueError.
Proof. unfold float. now intros ->. Qed.

(** The four patterns of the [try] block, one lemma each. *)
Section Patterns.
Variables value_str clean_str : pystr.
Let numbers := findall_numbers clean_str.

Lemma body_upper_bound t rest m :
  has_le value_str = true ->
  numbers = t :: rest -> float_of_token t = Some m ->
  parse_body value_str clean_str
  = Ok (Some (None, Some m, Some (m / 2)%Q)).
Proof.
  intros H E F. unfold parse_body. rewrite H. fold numbers. rewrite E.
  cbn. now rewrite (float_some _ _ F).
Qed.

Lemma body_lower_bound t rest m :
  has_le value_str = false -> has_ge value_str = true ->
  numbers = t :: rest -> float_of_token t = Some m ->
  parse_body value_str clean_str = Ok (Some (Some m, None, None)).
Proof.
  intros H1 H2 E F. unfold parse_body. rewrite H1, H2. fold numbers.
  rewrite E. cbn. now rewrite (float_some _ _ F).
Qed.

Lemma body_range t1 t2 rest a b :
  has_le value_str = false -> has_ge value_str = false ->
  has_dash clean_str = true ->
  numbers = t1 :: t2 :: rest ->
  float_of_token t1 = Some a -> float_of_token t2 = Some b ->
  parse_body value_str clean_str
  = Ok (Some (Some a, Some b, Some ((a + b) / 2)%Q)).
Proof.
  intros H1 H2 H3 E Fa Fb. unfold parse_body. rewrite H1, H2, H3.
  fold numbers. rewrite E. cbn.
  rewrite (float_some _ _ Fa). cbn. now rewrite (float_some _ _ Fb).
Qed.

Lemma body_range_bad_second t1 t2 rest a :
has_le value_str = false -> has_ge value_str = false ->
has_dash clean_str = true ->
numbers = t1 :: t2 :: rest ->
float_of_token t1 = Some a -> float_of_token t2 = None ->
parse_body value_str clean_str = Raise ValueError.
Proof.
intros H1 H2 H3 E Fa Fb. unfold parse_body. rewrite H1, H2, H3.
fold numbers. rewrite E. cbn.
rewrite (float_some _ _ Fa). cbn. now rewrite (float_none _ Fb).
Qed.

Lemma body_range_short :
  has_le value_str = false -> has_ge value_str = false ->
  has_dash clean_str = true ->
  (length numbers < 2)%nat ->
  parse_body value_str clean_str = Ok None.
Proof.
  intros H1 H2 H3 L. unfold parse_body. rewrite H1, H2, H3. fold numbers.
  destruct (Nat.leb_spec 2 (length numbers)); [lia | reflexivity].
Qed.

Lemma body_single t rest m :
  has_le value_str = false -> has_ge value_str = false ->
  has_dash clean_str = false ->
  numbers = t :: rest -> float_of_token t = Some m ->
  parse_body value_str clean_str = Ok (Some (None, None, Some m)).
Proof.
  intros H1 H2 H3 E F. unfold parse_body. rewrite H1, H2, H3.
  fold numbers. rewrite E. cbn. now rewrite (float_some _ _ F).
Qed.

(** Whatever the pattern, no token or a first token that is no number
    gives no result. *)
Lemma body_no_token :
  numbers = [] ->
  match parse_body value_str clean_str with
  | Ok (Some _) => False
  | _ => True
  end.
Proof.
  intros E. unfold parse_body. fold numbers. rewrite E.
  destruct (has_le value_str); [exact I|].
  destruct (has_ge value_str); [exact I|].
  destruct (has_dash clean_str); exact I.
Qed.

Lemma body_bad_token t rest :
  numbers = t :: rest -> float_of_token t = None ->
  match parse_body value_str clean_str with
  | Ok (Some _) => False
  | _ => True
  end.
Proof.
  intros E F. unfold parse_body. fold numbers. rewrite E.
  destruct (has_le value_str); [cbn; now rewrite (float_none _ F)|].
  destruct (has_ge value_str); [cbn; now rewrite (float_none _ F)|].
  destruct (has_dash clean_str).
  - destruct (2 <=? length (t :: rest))%nat; [|exact I].
    cbn. now rewrite (float_none _ F).
  - cbn. now rewrite (float_none _ F).
Qed.
End Patterns.

Lemma none3_of_no_result (r : res (option triple)) :
  match r with Ok (Some _) => False | _ => True end ->
  match r with Ok (Some t) => t | _ => none3 end = none3.
Proof. destruct r as [[t|]|e]; [contradiction | reflexivity | reflexivity]. Qed.

End RangeParserFacts.
Import RangeParserFacts.

(** C3 (as amended).  [parse_single_range] gives no result on a null or empty
    text.  On a text over the parser's alphabet, with [v] the trimmed text and
    the numeric tokens read from its unit-stripped form: an upper-bound marker
    gives (None, max, max/2) with max the first token; else a lower-bound
    marker gives (min, None, None); else a hyphen or en-dash with two tokens
    or more gives (first, second, their average), no result when the second
    is no number, and with fewer than two tokens gives no result; else (no marker at all) the first token is the
    midpoint; no token, or a first token that is no number, gives no result.
    The five sample texts give the stated triples. *)
Theorem parse_single_range_rules :
  parse_single_range None = none3
  /\ parse_single_range (Some []) = none3
  /\ (forall s : pystr,
       range_text s = true -> s <> [] ->
       let v := strip s in
       let numbers := findall_numbers (clean_text v) in
       (has_le v = true ->
        forall t rest m, numbers = t :: rest -> float_of_token t = Some m ->
        parse_single_range (Some s) = (None, Some m, Some (m / 2)%Q))
       /\ (has_le v = false -> has_ge v = true ->
           forall t rest m, numbers = t :: rest -> float_of_token t = Some m ->
           parse_single_range (Some s) = (Some m, None, None))
       /\ (has_le v = false -> has_ge v = false ->
           has_dash (clean_text v) = true ->
           forall t1 t2 rest a b,
             numbers = t1 :: t2 :: rest ->
             float_of_token t1 = Some a -> float_of_token t2 = Some b ->
             parse_single_range (Some s)
             = (Some a, Some b, Some ((a + b) / 2)%Q))
       /\ (has_le v = false -> has_ge v = false ->
           has_dash (clean_text v) = true ->
           forall t1 t2 rest a,
             numbers = t1 :: t2 :: rest ->
             float_of_token t1 = Some a -> float_of_token t2 = None ->
             parse_single_range (Some s) = none3)
       /\ (has_le v = false -> has_ge v = false ->
           has_dash (clean_text v) = true -> (length numbers < 2)%nat ->
           parse_single_range (Some s) = none3)
       /\ (has_le v = false -> has_ge v = false ->
           has_dash (clean_text v) = false ->
           forall t rest m, numbers = t :: rest -> float_of_token t = Some m ->
           parse_single_range (Some s) = (None, None, Some m))
       /\ (numbers = [] -> parse_single_range (Some s) = none3)
       /\ (forall t rest, numbers = t :: rest -> float_of_token t = None ->
           parse_single_range (Some s) = none3))
  /\ triple_eq (parse_single_range (Some (py "≤0.17")))
               (None, Some 0.17%Q, Some 0.085%Q)
  /\ triple_eq (parse_single_range (Some (py "360-510 MPa")))
               (Some 360%Q, Some 510%Q, Some 435%Q)
  /\ triple_eq (parse_single_range (Some (py "≥235 MPa")))
               (Some 235%Q, None, None)
  /\ triple_eq (parse_single_range (Some (py "0.17")))
               (None, None, Some 0.17%Q).
Proof.
  split; [reflexivity|]. split; [reflexivity|]. split.
  - intros s _ Hs v numbers.
    pose proof (parse_single_range_nonempty s Hs) as P. fold v in P.
    repeat split.
    + intros H t rest m E F. rewrite P.
      now rewrite (body_upper_bound v (clean_text v) t rest m H E F).
    + intros H1 H2 t rest m E F. rewrite P.
      now rewrite (body_lower_bound v (clean_text v) t rest m H1 H2 E F).
    + intros H1 H2 H3 t1 t2 rest a b E Fa Fb. rewrite P.
      now rewrite (body_range v (clean_text v) t1 t2 rest a b H1 H2 H3 E Fa Fb).
    + intros H1 H2 H3 t1 t2 rest a E Fa Fb. rewrite P.
      now rewrite (body_range_bad_second v (clean_text v) t1 t2 rest a
                     H1 H2 H3 E Fa Fb).
    + intros H1 H2 H3 L. rewrite P.
      now rewrite (body_range_short v (clean_text v) H1 H2 H3 L).
    + intros H1 H2 H3 t rest m E F. rewrite P.
      now rewrite (body_single v (clean_text v) t rest m H1 H2 H3 E F).
    + intros E. rewrite P. apply none3_of_no_result.
      exact (body_no_token v (clean_text v) E).
    + intros t rest E F. rewrite P. apply none3_of_no_result.
      exact (body_bad_token v (clean_text v) t rest E F).
  - repeat split; vm_compute; reflexivity.
Qed.

(** The range rule of C3 at "360-510 MPa". *)
Lemma parse_single_range_rules_witness :
  parse_single_range (Some (py "360-510 MPa"))
  = (Some 360%Q, Some 510%Q, Some ((360 + 510) / 2)%Q).
Proof.
  refine (proj1 (proj2 (proj2 (proj1 (proj2 (proj2 parse_single_range_rules))
            (py "360-510 MPa") _ _))) _ _ _
            (py "360") (py "510") [] 360%Q 510%Q _ _ _);
    first [reflexivity | discriminate].
Defined.

(** C3 fails as stated: "-5" has no bound marker and fewer than two numeric
    tokens, so none of the first three rules applies, and it has a single
    numeric token; the result is not (None, None, 5). *)
Lemma parse_single_range_hyphen_one_number :
  has_le (strip (py "-5")) = false
  /\ has_ge (strip (py "-5")) = false
  /\ findall_numbers (clean_text (strip (py "-5"))) = [py "5"]
  /\ float_of_token (py "5") = Some 5%Q
  /\ parse_single_range (Some (py "-5")) = none3
  /\ parse_single_range (Some (py "-5")) <> (None, None, Some 5%Q).
Proof. repeat split; try reflexivity. discriminate. Qed.

(** C9 (as amended).  A text over the parser's alphabet with no bound marker
    whose unit-stripped form holds a hyphen or en-dash and fewer than two
    numeric tokens gives (None, None, None), also when it has exactly one
    numeric token, as "-" and "abc-5" do. *)
Theorem parse_single_range_dash_short (s : pystr) :
  range_text s = true ->
  has_le (strip s) = false -> has_ge (strip s) = false ->
  has_dash (clean_text (strip s)) = true ->
  (length (findall_numbers (clean_text (strip s))) < 2)%nat ->
  parse_single_range (Some s) = none3.
Proof.
  intros _ H1 H2 H3 L.
  destruct s as [|c s]; [reflexivity|].
  rewrite parse_single_range_nonempty by discriminate.
  now rewrite (body_range_short _ _ H1 H2 H3 L).
Qed.

Lemma parse_single_range_dash_short_witness :
  parse_single_range (Some (py "abc-5")) = none3
  /\ parse_single_range (Some (py "-")) = none3
  /\ length (findall_numbers (clean_text (strip (py "abc-5")))) = 1%nat.
Proof.
  split; [|split].
  - apply parse_single_range_dash_short; first [reflexivity | vm_compute; lia].
  - apply parse_single_range_dash_short; first [reflexivity | vm_compute; lia].
  - reflexivity.
Defined.

(** C9 fails as stated: "<=-5" has a hyphen and one numeric token in its
    unit-stripped form, and the upper-bound rule, tried first, reads the 5. *)
Lemma parse_single_range_bound_before_dash :
  has_dash (clean_text (strip (py "<=-5"))) = true
  /\ findall_numbers (clean_text (strip (py "<=-5"))) = [py "5"]
  /\ parse_single_range (Some (py "<=-5")) = (None, Some 5%Q, Some (5 / 2)%Q)
  /\ parse_single_range (Some (py "<=-5")) <> none3.
Proof. repeat split; try reflexivity. discriminate. Qed.

(* ===================================================================== *)
(** * Facts about the similarity primitives                               *)
(* ===================================================================== *)

Module FeaturesFacts.

#[local] Open Scope Q_scope.

Lemma Qltb_lt a b : Qltb a b = true <-> a < b.
Proof.
  unfold Qltb. rewrite negb_true_iff. split.
  - intros H. apply Qnot_le_lt. intros L. apply Qle_bool_iff in L. congruence.
  - intros H. destruct (Qle_bool b a) eqn:E; [|reflexivity].
    apply Qle_bool_iff in E. exfalso. exact (Qlt_not_le _ _ H E).
Qed.

Lemma Qltb_ge a b : Qltb a b = false <-> b <= a.
Proof.
  unfold Qltb. rewrite negb_false_iff. apply Qle_bool_iff.
Qed.

(** The overlap and the union of two intervals given by their end points in
    either order. *)
Definition overlap_of (a1 b1 a2 b2 : Q) : Q :=
  Qmax 0 (Qmin (Qmax a1 b1) (Qmax a2 b2) - Qmax (Qmin a1 b1) (Qmin a2 b2)).

Definition union_of (a1 b1 a2 b2 : Q) : Q :=
  Qmax (Qmax a1 b1) (Qmax a2 b2) - Qmin (Qmin a1 b1) (Qmin a2 b2).

Ltac no_minmax t :=
  lazymatch t with
  | context [Qmax _ _] => fail
  | context [Qmin _ _] => fail
  | _ => idtac
  end.

(** Case analysis on the innermost [Qmax] or [Qmin] of the goal. *)
Ltac minmax_step :=
  match goal with
  | |- context [Qmax ?a ?b] =>
    no_minmax a; no_minmax b;
    let H := fresh in let E := fresh in
    destruct (Q.max_spec a b) as [[H E]|[H E]];
    revert E; generalize (Qmax a b); intros ? E
  | |- context [Qmin ?a ?b] =>
    no_minmax a; no_minmax b;
    let H := fresh in let E := fresh in
    destruct (Q.min_spec a b) as [[H E]|[H E]];
    revert E; generalize (Qmin a b); intros ? E
  end.

Ltac minmax_cases := repeat minmax_step.

Lemma union_nonneg a1 b1 a2 b2 : 0 <= union_of a1 b1 a2 b2.
Proof. unfold union_of. minmax_cases; lra. Qed.

Lemma overlap_nonneg a1 b1 a2 b2 : 0 <= overlap_of a1 b1 a2 b2.
Proof. unfold overlap_of. apply Q.le_max_l. Qed.

Lemma overlap_le_union a1 b1 a2 b2 :
  overlap_of a1 b1 a2 b2 <= union_of a1 b1 a2 b2.
Proof. unfold overlap_of, union_of. minmax_cases; lra. Qed.

Lemma interval_overlap_ratio_some a1 b1 a2 b2 :
  interval_overlap_ratio (Some a1) (Some b1) (Some a2) (Some b2)
  = if Qltb 0 (union_of a1 b1 a2 b2)
    then overlap_of a1 b1 a2 b2 / union_of a1 b1 a2 b2
    else 0.
Proof. reflexivity. Qed.

Lemma interval_overlap_ratio_bounds min1 max1 min2 max2 :
  0 <= interval_overlap_ratio min1 max1 min2 max2 <= 1.
Proof.
  destruct min1 as [a1|], max1 as [b1|], min2 as [a2|], max2 as [b2|];
    try (cbn; lra).
  rewrite interval_overlap_ratio_some.
  destruct (Qltb 0 (union_of a1 b1 a2 b2)) eqn:U; [|lra].
  apply Qltb_lt in U.
  pose proof (overlap_nonneg a1 b1 a2 b2).
  pose proof (overlap_le_union a1 b1 a2 b2).
  split.
  - apply Qle_shift_div_l; [exact U | lra].
  - apply Qle_shift_div_r; [exact U | lra].
Qed.

Lemma categorical_match_cases v1 v2 :
  categorical_match v1 v2 = 0 \/ categorical_match v1 v2 = 1.
Proof.
  unfold categorical_match.
  destruct (isna v1 || isna v2); [now left|].
  destruct (cell_eq v1 v2); [now right | now left].
Qed.

End FeaturesFacts.
Import FeaturesFacts.

(** C7.  [interval_overlap_ratio] is 0 when an input is null; otherwise, with
    each interval put in order, it is max(0, min(max1,max2) - max(min1,min2))
    over max(max1,max2) - min(min1,min2), and 0 when that union is 0 (the
    union is never negative).  It is 0 on (a, b, a, b) when a = b, and 5/15 on
    (0, 10, 5, 15). *)
Theorem interval_overlap_ratio_spec :
  (forall min1 max1 min2 max2 : option Q,
     min1 = None \/ max1 = None \/ min2 = None \/ max2 = None ->
     interval_overlap_ratio min1 max1 min2 max2 = 0%Q)
  /\ (forall a1 b1 a2 b2 : Q,
       let min1 := Qmin a1 b1 in
       let max1 := Qmax a1 b1 in
       let min2 := Qmin a2 b2 in
       let max2 := Qmax a2 b2 in
       let overlap := Qmax 0 (Qmin max1 max2 - Qmax min1 min2) in
       let union := (Qmax max1 max2 - Qmin min1 min2)%Q in
       (min1 <= max1 /\ min2 <= max2 /\ 0 <= union)%Q
       /\ (~ union == 0 ->
           interval_overlap_ratio (Some a1) (Some b1) (Some a2) (Some b2)
           == overlap / union)
       /\ (union == 0 ->
           interval_overlap_ratio (Some a1) (Some b1) (Some a2) (Some b2)
           = 0%Q))
  /\ (forall a b : Q,
       a == b ->
       interval_overlap_ratio (Some a) (Some b) (Some a) (Some b) = 0%Q)
  /\ interval_overlap_ratio (Some 0%Q) (Some 10%Q) (Some 5%Q) (Some 15%Q)
     == 5 / 15.
Proof.
  split; [|split; [|split]].
  - intros [a1|] [b1|] [a2|] [b2|] H; try reflexivity.
    now destruct H as [H|[H|[H|H]]].
  - intros a1 b1 a2 b2 min1 max1 min2 max2 overlap union.
    change union with (union_of a1 b1 a2 b2).
    change overlap with (overlap_of a1 b1 a2 b2).
    pose proof (union_nonneg a1 b1 a2 b2) as P.
    rewrite interval_overlap_ratio_some.
    split; [|split].
    + repeat split; [| |exact P]; subst min1 max1 min2 max2; minmax_cases; lra.
    + intros U.
      destruct (Qltb 0 (union_of a1 b1 a2 b2)) eqn:E; [reflexivity|].
      apply Qltb_ge in E. exfalso. apply U. lra.
    + intros U.
      destruct (Qltb 0 (union_of a1 b1 a2 b2)) eqn:E; [|reflexivity].
      apply Qltb_lt in E. lra.
  - intros a b E. rewrite interval_overlap_ratio_some.
    destruct (Qltb 0 (union_of a b a b)) eqn:U; [|reflexivity].
    apply Qltb_lt in U. exfalso. revert U. unfold union_of.
    minmax_cases; lra.
  - vm_compute. reflexivity.
Qed.

(** C7 at the degenerate interval (3, 3) and at an interval given with its
    end points in the other order. *)
Lemma interval_overlap_ratio_spec_witness :
  interval_overlap_ratio (Some 3%Q) (Some 3%Q) (Some 3%Q) (Some 3%Q) = 0%Q
  /\ interval_overlap_ratio (Some 10%Q) (Some 0%Q) (Some 5%Q) (Some 15%Q)
     == Qmax 0 (Qmin (Qmax 10 0) (Qmax 5 15) - Qmax (Qmin 10 0) (Qmin 5 15))
        / (Qmax (Qmax 10 0) (Qmax 5 15) - Qmin (Qmin 10 0) (Qmin 5 15)).
Proof.
  split.
  - apply (proj1 (proj2 (proj2 interval_overlap_ratio_spec))). reflexivity.
  - apply (proj1 (proj2 (proj1 (proj2 interval_overlap_ratio_spec) 10 0 5 15)%Q)).
    vm_compute. discriminate.
Defined.

(* ===================================================================== *)
(** * Facts about the similarity scores                                   *)
(* ===================================================================== *)

Module SimilarityFacts.

#[local] Open Scope Q_scope.

Definition in_unit (x : Q) : Prop := 0 <= x <= 1.

Lemma Qsum_bounds l :
  Forall in_unit l -> 0 <= Qsum l <= inject_Z (Z.of_nat (length l)).
Proof.
  induction 1 as [|x l Hx Hl IH]; [split; exact (Qle_refl 0)|].
  cbn [Qsum fold_right length]. rewrite Nat2Z.inj_succ.
  unfold Z.succ. rewrite inject_Z_plus. fold (Qsum l).
  unfold in_unit in Hx. change (inject_Z 1) with 1. lra.
Qed.

Lemma mean_or_zero_bounds l : Forall in_unit l -> in_unit (mean_or_zero l).
Proof.
  intros H. destruct l as [|x l]; [unfold in_unit; cbn; lra|].
  pose proof (Qsum_bounds _ H) as [B1 B2].
  unfold mean_or_zero, mean, in_unit.
  assert (0 < inject_Z (Z.of_nat (length (x :: l)))) as P.
  { change 0 with (inject_Z 0). rewrite <- Zlt_Qlt. cbn [length]. lia. }
  split.
  - apply Qle_shift_div_l; [exact P | lra].
  - apply Qle_shift_div_r; [exact P | lra].
Qed.

Lemma Forall_flat_map {A B} (P : B -> Prop) (f : A -> list B) (l : list A) :
  (forall a, Forall P (f a)) -> Forall P (flat_map f l).
Proof.
  intros H. induction l as [|a l IH]; cbn [flat_map]; [constructor|].
  apply Forall_app. split; [apply H | exact IH].
Qed.

Lemma dimension_similarity_bounds index row1 row2 feats :
  in_unit (calculate_dimension_similarity index row1 row2 feats).
Proof.
  apply mean_or_zero_bounds, Forall_flat_map. intros [min_col max_col].
  destruct (has_column index min_col && has_column index max_col);
    repeat constructor; apply interval_overlap_ratio_bounds.
Qed.

Lemma categorical_similarity_bounds index row1 row2 feats :
  in_unit (calculate_categorical_similarity index row1 row2 feats).
Proof.
  apply mean_or_zero_bounds, Forall_flat_map. intros c.
  destruct (has_column index c); repeat constructor;
    destruct (categorical_match_cases (row1 c) (row2 c)) as [-> | ->]; lra.
Qed.

Lemma property_term_bounds val1 val2 feature_range :
  0 < feature_range ->
  in_unit (Qmax 0 (1 - Qabs (val1 - val2) / feature_range)).
Proof.
  intros P. unfold in_unit.
  assert (0 <= Qabs (val1 - val2) / feature_range) as D.
  { apply Qle_shift_div_l; [exact P|]. pose proof (Qabs_nonneg (val1 - val2)). lra. }
  destruct (Q.max_spec 0 (1 - Qabs (val1 - val2) / feature_range))
    as [[L E]|[L E]]; rewrite E; lra.
Qed.

Lemma property_similarity_bounds index row1 row2 feats df :
  in_unit (calculate_grade_property_similarity index row1 row2 feats df).
Proof.
  apply mean_or_zero_bounds, Forall_flat_map. intros c.
  destruct (has_column index c); [|constructor].
  destruct (num (row1 c)) as [val1|]; [|constructor].
  destruct (num (row2 c)) as [val2|]; [|constructor].
  destruct (column_max df c) as [hi|]; [|constructor].
  destruct (column_min df c) as [lo|]; [|constructor].
  cbv zeta. destruct (Qltb 0 (hi - lo)) eqn:R; [|constructor].
  apply Qltb_lt in R.
  constructor; [now apply property_term_bounds | constructor].
Qed.

Lemma weighted_sum_range d c p :
  in_unit d -> in_unit c -> in_unit p ->
  in_unit (w_dimensions * d + w_categorical * c + w_grade_properties * p)
  /\ (w_dimensions * d + w_categorical * c + w_grade_properties * p == 0
      <-> d == 0 /\ c == 0 /\ p == 0).
Proof.
  unfold in_unit, w_dimensions, w_categorical, w_grade_properties.
  intros Hd Hc Hp. repeat split; lra.
Qed.

(** ** The sort *)

Lemma insert_desc_perm x l : Permutation (x :: l) (insert_desc x l).
Proof.
  induction l as [|y l IH]; [reflexivity|]. cbn [insert_desc].
  destruct (Qltb (similarity_score x) (similarity_score y)); [|reflexivity].
  rewrite perm_swap. now constructor.
Qed.

Lemma sort_desc_perm l : Permutation l (sort_desc l).
Proof.
  induction l as [|x l IH]; [reflexivity|]. cbn [sort_desc fold_right].
  fold (sort_desc l). rewrite <- insert_desc_perm. now constructor.
Qed.

Lemma in_top3_of r l : In r (top3_of l) -> In r l.
Proof.
  destruct l as [|x l]; [tauto|]. unfold top3_of. intros H.
  apply list_elem_of_In, elem_of_take in H as (i & H & _).
  apply list_elem_of_lookup_2, list_elem_of_In in H.
  eapply Permutation_in; [symmetry; apply sort_desc_perm | exact H].
Qed.

(** ** The loops *)

Lemma in_enumerate {A} (l : list A) i x :
  In (i, x) (enumerate l) <-> l !! i = Some x.
Proof.
  unfold enumerate. rewrite <- list_elem_of_In, elem_of_lookup_imap. split.
  - intros (j & y & E & H). now inversion E; subst.
  - intros H. now exists i, x.
Qed.

(** An entry of the scores of one source row comes from another row that is
    no duplicate of it. *)
Lemma in_pair_scores df valid idx1 row1 r :
  In r (pair_scores df valid idx1 row1) <->
  exists idx2 row2,
    valid !! idx2 = Some row2 /\ idx1 <> idx2
    /\ is_exact_duplicate row1 row2 = false
    /\ r = score_pair df row1 row2.
Proof.
  unfold pair_scores. rewrite in_flat_map. split.
  - intros ([idx2 row2] & Hin & Hr). apply in_enumerate in Hin.
    destruct (Nat.eqb_spec idx1 idx2); [contradiction|].
    destruct (is_exact_duplicate row1 row2) eqn:D; [contradiction|].
    destruct Hr as [<-|[]]. now exists idx2, row2.
  - intros (idx2 & row2 & Hl & Hne & D & ->). exists (idx2, row2).
    split; [now apply in_enumerate|].
    destruct (Nat.eqb_spec idx1 idx2); [contradiction|]. rewrite D. now left.
Qed.

(** The batches cover the indices of the valid rows once, in order. *)
Lemma batches_upto (f : nat -> list result) n m :
  flat_map (fun i => flat_map f (seq i (Nat.min (i + batch_size) n - i)))
           (map (fun k => k * batch_size)%nat (seq 0 m))
  = flat_map f (seq 0 (Nat.min (m * batch_size) n)).
Proof.
  induction m as [|m IH]; [reflexivity|].
  rewrite seq_S, map_app, flat_map_app, IH. cbn [map flat_map Nat.add].
  rewrite app_nil_r, <- flat_map_app. f_equal.
  unfold batch_size.
  destruct (Nat.le_gt_cases (m * 50) n) as [L|G].
  - replace (Nat.min (m * 50) n) with (m * 50)%nat by lia.
    rewrite <- seq_app. f_equal. lia.
  - replace (Nat.min (m * 50 + 50) n - m * 50)%nat with 0%nat by lia.
    cbn [seq]. rewrite app_nil_r. f_equal. lia.
Qed.

Lemma similarity_results_flat df :
  similarity_results_of df
  = flat_map (rows_of_source df (valid_rows df))
             (seq 0 (length (valid_rows df))).
Proof.
  unfold similarity_results_of, batch_starts.
  rewrite batches_upto. f_equal. f_equal. unfold batch_size.
  pose proof (Nat.div_mod_eq (length (valid_rows df) + 50 - 1) 50).
  pose proof (Nat.mod_upper_bound (length (valid_rows df) + 50 - 1) 50).
  lia.
Qed.

(** Every row of the result table scores two different valid rows that are
    no duplicates of each other. *)
Lemma in_similarity_results df r :
  In r (similarity_results_of df) ->
  exists idx1 idx2 row1 row2,
    valid_rows df !! idx1 = Some row1 /\ valid_rows df !! idx2 = Some row2
    /\ idx1 <> idx2 /\ is_exact_duplicate row1 row2 = false
    /\ r = score_pair df row1 row2.
Proof.
  rewrite similarity_results_flat, in_flat_map.
  intros (idx1 & _ & H). unfold rows_of_source in H.
  destruct (valid_rows df !! idx1) as [row1|] eqn:E1; [|contradiction].
  apply in_top3_of, in_pair_scores in H as (idx2 & row2 & E2 & Hne & D & ->).
  now exists idx1, idx2, row1, row2.
Qed.

Lemma returned_results df results :
  calculate_rfq_similarity df = Returned results ->
  results = similarity_results_of df /\ results <> [].
Proof.
  unfold calculate_rfq_similarity.
  destruct (similarity_results_of df) as [|r l]; [discriminate|].
  intros [= <-]. split; [reflexivity | discriminate].
Qed.

End SimilarityFacts.
Import SimilarityFacts.

(* ===================================================================== *)
(** * The aggregate score                                               *)
(* ===================================================================== *)

(** C1.  The aggregate score of a pair is 0.50 * dimension + 0.20 *
    categorical + 0.30 * grade-property of three group similarities that lie
    in [0, 1]; it lies in [0, 1], and it is 0 exactly when the three are 0.
    This holds for every two rows of every table, and so for every row of the
    result table. *)
Theorem aggregate_score_range (feature_df : frame) :
  (forall row1 row2 : row,
     let r := score_pair feature_df row1 row2 in
     similarity_score r
     = (0.50 * dimension_similarity r + 0.20 * categorical_similarity r
        + 0.30 * property_similarity r)%Q
     /\ (0 <= dimension_similarity r <= 1)%Q
     /\ (0 <= categorical_similarity r <= 1)%Q
     /\ (0 <= property_similarity r <= 1)%Q
     /\ (0 <= similarity_score r <= 1)%Q
     /\ (similarity_score r == 0
         <-> dimension_similarity r == 0 /\ categorical_similarity r == 0
             /\ property_similarity r == 0))
  /\ (forall (results : list result) (r : result),
       calculate_rfq_similarity feature_df = Returned results ->
       In r results ->
       similarity_score r
       = (0.50 * dimension_similarity r + 0.20 * categorical_similarity r
          + 0.30 * property_similarity r)%Q
       /\ (0 <= similarity_score r <= 1)%Q
       /\ (similarity_score r == 0
           <-> dimension_similarity r == 0 /\ categorical_similarity r == 0
               /\ property_similarity r == 0)).
Proof.
  assert (forall row1 row2 : row,
     let r := score_pair feature_df row1 row2 in
     similarity_score r
     = (0.50 * dimension_similarity r + 0.20 * categorical_similarity r
        + 0.30 * property_similarity r)%Q
     /\ (0 <= dimension_similarity r <= 1)%Q
     /\ (0 <= categorical_similarity r <= 1)%Q
     /\ (0 <= property_similarity r <= 1)%Q
     /\ (0 <= similarity_score r <= 1)%Q
     /\ (similarity_score r == 0
         <-> dimension_similarity r == 0 /\ categorical_similarity r == 0
             /\ property_similarity r == 0)) as Pair.
  { intros row1 row2 r.
    pose proof (dimension_similarity_bounds (columns feature_df) row1 row2
                  (dimension_features_of feature_df)) as Hd.
    pose proof (categorical_similarity_bounds (columns feature_df) row1 row2
                  (categorical_features_of feature_df)) as Hc.
    pose proof (property_similarity_bounds (columns feature_df) row1 row2
                  (grade_property_features_of feature_df) feature_df) as Hp.
    destruct (weighted_sum_range _ _ _ Hd Hc Hp) as [Hs Hz].
    split; [reflexivity|]. repeat (split; [assumption|]). exact Hz. }
  split; [exact Pair|].
  intros results r Hres Hin.
  apply returned_results in Hres as [-> _].
  apply in_similarity_results in Hin
    as (idx1 & idx2 & row1 & row2 & _ & _ & _ & _ & ->).
  destruct (Pair row1 row2) as (E & _ & _ & _ & Hs & Hz). auto.
Qed.

(** C1 at the second row of the result table of [sample_df]. *)
Lemma aggregate_score_range_witness :
  (0 <= similarity_score (score_pair sample_df rfq_a rfq_b) <= 1)%Q
  /\ calculate_rfq_similarity sample_df
     = Returned (similarity_results_of sample_df).
Proof.
  assert (calculate_rfq_similarity sample_df
          = Returned (similarity_results_of sample_df)) as E
    by (vm_compute; reflexivity).
  split; [|exact E].
  refine (proj1 (proj2 (proj2 (aggregate_score_range sample_df)
            (similarity_results_of sample_df)
            (score_pair sample_df rfq_a rfq_b) E _))).
  vm_compute. right. left. reflexivity.
Defined.

(* ===================================================================== *)
(** * Ranking and the duplicate skip                                      *)
(* ===================================================================== *)

Module RankingFacts.

#[local] Open Scope Q_scope.

(** [a] is ranked no lower than [b]. *)
Definition ranks_before (a b : result) : Prop :=
  similarity_score b <= similarity_score a.

(** The entries of one score. *)
Definition with_score (q : Q) (l : list result) : list result :=
  List.filter (fun r => Qeq_bool (similarity_score r) q) l.

Lemma insert_desc_sorted x l :
  StronglySorted ranks_before l -> StronglySorted ranks_before (insert_desc x l).
Proof.
  induction 1 as [|y l Hl IH Hy]; cbn [insert_desc].
  - repeat constructor.
  - destruct (Qltb (similarity_score x) (similarity_score y)) eqn:C.
    + apply Qltb_lt in C. constructor; [exact IH|].
      eapply Permutation_Forall; [apply insert_desc_perm|].
      constructor; [|exact Hy]. unfold ranks_before. lra.
    + apply Qltb_ge in C. constructor; [now constructor|].
      constructor; [exact C|].
      eapply Forall_impl; [exact Hy|]. unfold ranks_before. intros z Hz.
      cbn beta in Hz. lra.
Qed.

Lemma sort_desc_sorted l : StronglySorted ranks_before (sort_desc l).
Proof.
  induction l as [|x l IH]; [constructor|].
  cbn [sort_desc fold_right]. now apply insert_desc_sorted.
Qed.

Lemma take_sorted {A} (R : A -> A -> Prop) n l :
  StronglySorted R l -> StronglySorted R (take n l).
Proof.
  intros H. revert n. induction H as [|x l Hl IH Hx]; intros [|n]; cbn [take];
    try constructor; [apply IH|].
  apply List.Forall_forall. intros y Hy.
  rewrite List.Forall_forall in Hx. apply Hx.
  apply list_elem_of_In, elem_of_take in Hy as (i & Hy & _).
  eapply list_elem_of_In, list_elem_of_lookup_2, Hy.
Qed.

Lemma with_score_insert q x l :
  with_score q (insert_desc x l) = with_score q (x :: l).
Proof.
  unfold with_score. induction l as [|y l IH]; [reflexivity|].
  cbn [insert_desc].
  destruct (Qltb (similarity_score x) (similarity_score y)) eqn:C;
    [|reflexivity].
  apply Qltb_lt in C. cbn [List.filter] in *. rewrite IH.
  destruct (Qeq_bool (similarity_score x) q) eqn:Ex;
    destruct (Qeq_bool (similarity_score y) q) eqn:Ey; try reflexivity.
  apply Qeq_bool_iff in Ex, Ey. lra.
Qed.

Lemma sort_desc_stable q l : with_score q (sort_desc l) = with_score q l.
Proof.
  induction l as [|x l IH]; [reflexivity|].
  cbn [sort_desc fold_right]. fold (sort_desc l).
  rewrite with_score_insert. unfold with_score in *. cbn [List.filter].
  now rewrite IH.
Qed.

Lemma top3_of_take l : top3_of l = take 3 (sort_desc l).
Proof. now destruct l. Qed.

(** ** The duplicate test is symmetric and transitive *)

Lemma cell_eq_sym v1 v2 : cell_eq v1 v2 = true -> cell_eq v2 v1 = true.
Proof.
  destruct v1 as [|a|s], v2 as [|b|t]; try discriminate; cbn [cell_eq].
  - rewrite !Qeq_bool_iff. intros E. now symmetry.
  - rewrite !bool_decide_eq_true. congruence.
Qed.

Lemma cell_eq_trans v1 v2 v3 :
  cell_eq v1 v2 = true -> cell_eq v2 v3 = true -> cell_eq v1 v3 = true.
Proof.
  destruct v1 as [|a|s], v2 as [|b|t], v3 as [|c|u]; try discriminate;
    cbn [cell_eq].
  - rewrite !Qeq_bool_iff. intros E1 E2. now rewrite E1.
  - rewrite !bool_decide_eq_true. congruence.
Qed.

Lemma is_exact_duplicate_sym row1 row2 :
  is_exact_duplicate row1 row2 = true -> is_exact_duplicate row2 row1 = true.
Proof.
  unfold is_exact_duplicate. rewrite !andb_true_iff.
  intros [[H1 H2] H3]. repeat split; now apply cell_eq_sym.
Qed.

Lemma is_exact_duplicate_trans row1 row2 row3 :
  is_exact_duplicate row1 row2 = true -> is_exact_duplicate row2 row3 = true ->
  is_exact_duplicate row1 row3 = true.
Proof.
  unfold is_exact_duplicate. rewrite !andb_true_iff.
  intros [[H1 H2] H3] [[K1 K2] K3].
  repeat split; eapply cell_eq_trans; eassumption.
Qed.

(** A source row has no scored pair exactly when every other valid row is an
    exact duplicate of it. *)
Lemma pair_scores_none df valid idx1 row1 :
  pair_scores df valid idx1 row1 = [] <->
  forall idx2 row2,
    valid !! idx2 = Some row2 -> idx2 <> idx1 ->
    is_exact_duplicate row1 row2 = true.
Proof.
  split.
  - intros E idx2 row2 H2 Hne.
    destruct (is_exact_duplicate row1 row2) eqn:D; [reflexivity|]. exfalso.
    assert (In (score_pair df row1 row2) (pair_scores df valid idx1 row1)) as Hin.
    { apply in_pair_scores. exists idx2, row2. auto. }
    now rewrite E in Hin.
  - intros H. destruct (pair_scores df valid idx1 row1) as [|r l] eqn:E;
      [reflexivity|]. exfalso.
    assert (In r (pair_scores df valid idx1 row1)) as Hin by (rewrite E; now left).
    apply in_pair_scores in Hin as (idx2 & row2 & H2 & Hne & D & _).
    rewrite (H idx2 row2 H2) in D; [discriminate | auto].
Qed.

End RankingFacts.
Import RankingFacts.

(** The ranking of one source row: at most three entries, taken from the head
    of the stable descending sort of its scored pairs; none when no pair was
    scored. *)
Theorem top3_ranking (rfq_similarities : list result) :
  let top3 := top3_of rfq_similarities in
  (length top3 <= 3)%nat
  /\ StronglySorted ranks_before top3
  /\ top3 = take 3 (sort_desc rfq_similarities)
  /\ Permutation rfq_similarities (sort_desc rfq_similarities)
  /\ StronglySorted ranks_before (sort_desc rfq_similarities)
  /\ (forall q : Q,
       with_score q (sort_desc rfq_similarities) = with_score q rfq_similarities)
  /\ top3_of [] = [].
Proof.
  cbv zeta. rewrite top3_of_take. repeat split.
  - rewrite length_take. lia.
  - apply take_sorted, sort_desc_sorted.
  - apply sort_desc_perm.
  - apply sort_desc_sorted.
  - intros q. apply sort_desc_stable.
Qed.

(** The result table is the rows of the valid source rows, one source after
    the other in table order, each with at most three rows. *)
Theorem result_table_by_source (feature_df : frame) :
  similarity_results_of feature_df
  = flat_map (rows_of_source feature_df (valid_rows feature_df))
             (seq 0 (length (valid_rows feature_df)))
  /\ forall idx1 : nat,
       (length (rows_of_source feature_df (valid_rows feature_df) idx1) <= 3)%nat.
Proof.
  split; [apply similarity_results_flat|].
  intros idx1. unfold rows_of_source.
  destruct (valid_rows feature_df !! idx1); [|cbn; lia].
  rewrite top3_of_take, length_take. lia.
Qed.

(** C6 (the code departs from it).  Whenever a valid source row has no
    eligible counterpart (every other valid row is an exact duplicate of it,
    or there is none), no pair of the table is scored at all, and the call
    ends in the [KeyError] of the column [similarity_score] instead of a
    table without rows for that source. *)
Theorem no_counterpart_raises (feature_df : frame) (idx1 : nat) (row1 : row) :
  valid_rows feature_df !! idx1 = Some row1 ->
  pair_scores feature_df (valid_rows feature_df) idx1 row1 = [] ->
  rows_of_source feature_df (valid_rows feature_df) idx1 = []
  /\ similarity_results_of feature_df = []
  /\ calculate_rfq_similarity feature_df = KeyError "similarity_score".
Proof.
  intros H1 Hnone.
  assert (rows_of_source feature_df (valid_rows feature_df) idx1 = []) as Hsrc
    by (unfold rows_of_source; now rewrite H1, Hnone).
  assert (similarity_results_of feature_df = []) as Hres.
  { destruct (similarity_results_of feature_df) as [|r l] eqn:E; [reflexivity|].
    exfalso.
    assert (In r (similarity_results_of feature_df)) as Hin
      by (rewrite E; now left).
    apply in_similarity_results in Hin
      as (i & j & a & b & Ha & Hb & Hij & Hnd & _).
    pose proof (proj1 (pair_scores_none _ _ _ _) Hnone) as Hdup.
    assert (is_exact_duplicate a b = true); [|congruence].
    destruct (Nat.eq_dec i idx1) as [->|Hi].
    - assert (a = row1) as -> by congruence. apply (Hdup j b Hb). auto.
    - destruct (Nat.eq_dec j idx1) as [->|Hj].
      + assert (b = row1) as -> by congruence.
        apply is_exact_duplicate_sym, (Hdup i a Ha). auto.
      + eapply is_exact_duplicate_trans.
        * apply is_exact_duplicate_sym, (Hdup i a Ha). auto.
        * apply (Hdup j b Hb). auto. }
  split; [exact Hsrc|]. split; [exact Hres|].
  unfold calculate_rfq_similarity. now rewrite Hres.
Qed.

(** C6 on a table with one valid row, and on a table of two rows that are
    exact duplicates of each other. *)
Lemma no_counterpart_raises_witness :
  calculate_rfq_similarity single_df = KeyError "similarity_score"
  /\ is_exact_duplicate rfq_a rfq_a2 = true
  /\ calculate_rfq_similarity only_duplicates_df = KeyError "similarity_score".
Proof.
  split; [|split].
  - apply (no_counterpart_raises single_df 0 rfq_a); reflexivity.
  - reflexivity.
  - apply (no_counterpart_raises only_duplicates_df 0 rfq_a); reflexivity.
Defined.

(** C5 (the code departs from it).  The duplicate test compares with [==],
    which is false on a null: when the grade, the thickness centre or the
    width centre of a valid row is missing, no other row is a duplicate of
    it, however equal the two rows are; the pair is scored, and it is a row of
    the result table when the source row has at most three scored pairs. *)
Theorem null_twins_are_scored (feature_df : frame) (idx1 idx2 : nat)
    (row1 row2 : row) :
  valid_rows feature_df !! idx1 = Some row1 ->
  valid_rows feature_df !! idx2 = Some row2 ->
  idx1 <> idx2 ->
  isna (row1 "grade"%string) || isna (row1 "thickness_center"%string)
  || isna (row1 "width_center"%string) = true ->
  is_exact_duplicate row1 row2 = false
  /\ In (score_pair feature_df row1 row2)
        (pair_scores feature_df (valid_rows feature_df) idx1 row1)
  /\ ((length (pair_scores feature_df (valid_rows feature_df) idx1 row1) <= 3)%nat ->
      exists results,
        calculate_rfq_similarity feature_df = Returned results
        /\ In (score_pair feature_df row1 row2) results).
Proof.
  intros H1 H2 Hne Hnull.
  assert (is_exact_duplicate row1 row2 = false) as D.
  { unfold is_exact_duplicate.
    destruct (row1 "grade"%string) as [| |]; [reflexivity| |];
      (destruct (row1 "thickness_center"%string) as [| |];
       [now rewrite andb_false_r| |]);
      (destruct (row1 "width_center"%string) as [| |];
       [now rewrite andb_false_r| |]); discriminate. }
  assert (In (score_pair feature_df row1 row2)
             (pair_scores feature_df (valid_rows feature_df) idx1 row1)) as Hin.
  { apply in_pair_scores. exists idx2, row2. auto. }
  split; [exact D|]. split; [exact Hin|].
  intros Hlen.
  assert (In (score_pair feature_df row1 row2)
             (similarity_results_of feature_df)) as Hres.
  { rewrite similarity_results_flat. apply in_flat_map. exists idx1. split.
    - apply in_seq. apply lookup_lt_Some in H1. lia.
    - unfold rows_of_source. rewrite H1, top3_of_take.
      rewrite take_ge by (rewrite <- (Permutation_length (sort_desc_perm _)); exact Hlen).
      eapply Permutation_in; [apply sort_desc_perm | exact Hin]. }
  unfold calculate_rfq_similarity.
  destruct (similarity_results_of feature_df) as [|r l]; [contradiction|].
  eexists. split; [reflexivity | exact Hres].
Qed.

(** C5 on two valid rows that agree on every column but [id], with the same
    grade, the same thickness centre and no width: each is scored against the
    other, and both pairs are rows of the result table. *)
Lemma twins_without_width_are_scored :
  (forall col : string, col <> "id"%string -> twin "rfq-1" col = twin "rfq-2" col)
  /\ twin "rfq-1" "grade" = T "S235JR"
  /\ twin "rfq-1" "thickness_center" = CNum 3
  /\ twin "rfq-1" "width_center" = CNull
  /\ is_exact_duplicate (twin "rfq-1") (twin "rfq-2") = false
  /\ id_pairs (calculate_rfq_similarity twins_df)
     = Some [ (T "rfq-1", T "rfq-2"); (T "rfq-2", T "rfq-1") ].
Proof.
  split.
  - intros col Hne. unfold twin. cbn [row_of].
    destruct (String.eqb_spec col "id"); [contradiction | reflexivity].
  - split; [reflexivity|]. split; [reflexivity|]. split; [reflexivity|].
    split; [|vm_compute; reflexivity].
    refine (proj1 (null_twins_are_scored twins_df 0 1
                     (twin "rfq-1") (twin "rfq-2") _ _ _ _));
      first [discriminate | vm_compute; reflexivity].
Defined.

(** When the three compared values are equal and not null, and the valid
    rows have different identifiers, the pair is no row of the result
    table. *)
Theorem exact_duplicates_skipped (feature_df : frame)
    (results : list result) (idx1 idx2 : nat) (row1 row2 : row) :
  calculate_rfq_similarity feature_df = Returned results ->
  valid_rows feature_df !! idx1 = Some row1 ->
  valid_rows feature_df !! idx2 = Some row2 ->
  (forall i j a b,
     valid_rows feature_df !! i = Some a ->
     valid_rows feature_df !! j = Some b ->
     cell_eq (a "id"%string) (b "id"%string) = true -> i = j) ->
  is_exact_duplicate row1 row2 = true ->
  forall r : result,
    In r results ->
    ~ (cell_eq (rfq_id r) (row1 "id"%string) = true
       /\ cell_eq (match_id r) (row2 "id"%string) = true).
Proof.
  intros Hres H1 H2 Hid Hdup r Hin [E1 E2].
  apply returned_results in Hres as [-> _].
  apply in_similarity_results in Hin
    as (i & j & a & b & Ha & Hb & _ & Hnd & ->).
  cbn [rfq_id match_id score_pair] in E1, E2.
  pose proof (Hid _ _ _ _ Ha H1 E1) as ->.
  pose proof (Hid _ _ _ _ Hb H2 E2) as ->.
  congruence.
Qed.

Lemma exact_duplicates_skipped_witness :
  ~ (cell_eq (rfq_id (score_pair duplicates_df rfq_a rfq_b))
             (rfq_a "id"%string) = true
     /\ cell_eq (match_id (score_pair duplicates_df rfq_a rfq_b))
                (rfq_a2 "id"%string) = true).
Proof.
  refine (exact_duplicates_skipped duplicates_df
            (similarity_results_of duplicates_df)
            0 1 rfq_a rfq_a2 _ _ _ _ _
            (score_pair duplicates_df rfq_a rfq_b) _);
    try (vm_compute; reflexivity).
  - intros i j a b Hi Hj.
    destruct i as [|[|[|i]]]; destruct j as [|[|[|j]]];
      try discriminate; try reflexivity;
      injection Hi as <-; injection Hj as <-; vm_compute; discriminate.
  - vm_compute. left. reflexivity.
Defined.

(* ===================================================================== *)
(** * Facts about the reference join                                      *)
(* ===================================================================== *)

Module NormalizerFacts.

#[local] Open Scope string_scope.

(** The join key of a reference row. *)
Definition key (r : row) : option (list N) := text (r "grade_clean").

(** ** The deduplicated reference table has one row per key *)

Lemma shortest_name_in best group r :
  shortest_name best group = Some r ->
  (exists n, best = Some (n, r)) \/ In r group.
Proof.
  revert best. induction group as [|x group IH]; intros best; cbn [shortest_name].
  - destruct best as [[n b]|]; [|discriminate].
    intros [= <-]. left. now exists n.
  - destruct (text (x "Grade/Material")) as [s|].
    + destruct best as [[n b]|].
      * destruct (length s <? n)%nat; intros H; apply IH in H as [[m H]|H];
          try (right; right; exact H).
        -- injection H as <- <-. right. now left.
        -- left. now exists m.
      * intros H. apply IH in H as [[m H]|H]; [|right; right; exact H].
        injection H as <- <-. right. now left.
    + intros H. apply IH in H as [H|H]; [now left | right; right; exact H].
Qed.

Lemma select_best_entry_in group r :
  select_best_entry group = Some r -> In r group.
Proof.
  destruct group as [|a [|b group]]; [discriminate | intros [= <-]; now left |].
  unfold select_best_entry.
  destruct (List.filter _ _) as [|e l] eqn:F.
  - intros H. apply shortest_name_in in H as [[n H]|H]; [discriminate | exact H].
  - intros [= <-].
    assert (In e (e :: l)) as Hin by now left.
    rewrite <- F in Hin. now apply filter_In in Hin.
Qed.

Lemma insert_key_perm k l : Permutation (k :: l) (insert_key k l).
Proof.
  induction l as [|y l IH]; [reflexivity|]. cbn [insert_key].
  destruct (pystr_ltb y k); [|reflexivity].
  rewrite perm_swap. now constructor.
Qed.

Lemma sort_keys_perm l : Permutation l (sort_keys l).
Proof.
  induction l as [|x l IH]; [reflexivity|]. cbn [sort_keys fold_right].
  fold (sort_keys l). rewrite <- insert_key_perm. now constructor.
Qed.

Lemma group_keys_nodup df : List.NoDup (group_keys df).
Proof.
  unfold group_keys. eapply Permutation_NoDup; [apply sort_keys_perm|].
  apply NoDup_ListNoDup, NoDup_remove_dups.
Qed.

Lemma group_of_key df k r : In r (group_of df k) -> key r = Some k.
Proof.
  unfold group_of. intros H. apply filter_In in H as [_ H].
  now apply bool_decide_eq_true in H.
Qed.

Lemma selected_key df k r :
  select_best_entry (group_of df k) = Some r -> key r = Some k.
Proof. intros H. eapply group_of_key, select_best_entry_in, H. Qed.

Lemma omap_keys_nodup (f : list N -> option row) (keys : list (list N)) :
  List.NoDup keys ->
  (forall k r, f k = Some r -> key r = Some k) ->
  List.NoDup (map key (omap f keys))
  /\ forall r, In r (omap f keys) -> exists k, In k keys /\ key r = Some k.
Proof.
  intros Hnd Hf. induction Hnd as [|k ks Hk Hks IH]; cbn [omap list_omap].
  - split; [constructor | intros r []].
  - destruct IH as [IH1 IH2]. destruct (f k) as [r|] eqn:E.
    + split.
      * cbn [map]. constructor; [|exact IH1].
        intros Hin. apply in_map_iff in Hin as (r' & Er' & Hr').
        apply IH2 in Hr' as (k' & Hk' & Ek').
        rewrite (Hf _ _ E), Ek' in Er'. injection Er' as ->. contradiction.
      * intros r' [<-|Hr'].
        -- exists k. split; [now left | now apply Hf].
        -- apply IH2 in Hr' as (k' & Hk' & Ek'). exists k'. split; [now right | exact Ek'].
    + split; [exact IH1|].
      intros r' Hr'. apply IH2 in Hr' as (k' & Hk' & Ek').
      exists k'. split; [now right | exact Ek'].
Qed.

Lemma dedup_keys df :
  List.NoDup (map key (rows (deduplicate_reference_data df)))
  /\ forall r, In r (rows (deduplicate_reference_data df)) ->
               exists k, key r = Some k.
Proof.
  destruct (omap_keys_nodup (fun k => select_best_entry (group_of df k))
              (group_keys df) (group_keys_nodup df) (selected_key df))
    as [H1 H2].
  split; [exact H1|].
  intros r Hr. apply H2 in Hr as (k & _ & Hk). now exists k.
Qed.

(** ** A left row matches at most one reference row *)

Lemma key_match_key v r k :
  key r = Some k -> key_match v (r "grade_clean") = true -> key r = text v.
Proof.
  unfold key. destruct (r "grade_clean") as [|q|s]; try discriminate.
  intros [= <-]. destruct v as [|q|g]; try discriminate.
  cbn. intros H. apply bool_decide_eq_true in H. now subst.
Qed.

Lemma at_most_one (P : row -> bool) (a : option (list N)) (l : list row) :
  List.NoDup (map key l) ->
  (forall r, In r l -> P r = true -> key r = a) ->
  (length (List.filter P l) <= 1)%nat.
Proof.
  induction l as [|r l IH]; intros Hnd HP; [cbn; lia|].
  cbn [map] in Hnd. apply List.NoDup_cons_iff in Hnd as [Hr Hnd].
  cbn [List.filter]. destruct (P r) eqn:Pr.
  - assert (List.filter P l = []) as ->; [|cbn; lia].
    destruct (List.filter P l) as [|x xs] eqn:F; [reflexivity|]. exfalso.
    assert (In x (List.filter P l)) as Hx by (rewrite F; now left).
    apply filter_In in Hx as [Hx Px]. apply Hr.
    rewrite (HP r (or_introl eq_refl) Pr), <- (HP x (or_intror Hx) Px).
    now apply in_map.
  - apply IH; [exact Hnd|]. intros x Hx. apply HP. now right.
Qed.

Lemma unique_match (l : list row) (v : cell) :
  List.NoDup (map key l) ->
  (forall r, In r l -> exists k, key r = Some k) ->
  (length (List.filter (fun r => key_match v (r "grade_clean")) l) <= 1)%nat.
Proof.
  intros Hnd Hk. apply (at_most_one _ (text v)); [exact Hnd|].
  intros r Hr M. destruct (Hk r Hr) as [k E]. now apply (key_match_key v r k).
Qed.

Lemma no_match_of_null (l : list row) (v : cell) :
  (forall r, In r l -> exists k, key r = Some k) ->
  text v = None ->
  List.filter (fun r => key_match v (r "grade_clean")) l = [].
Proof.
  intros Hk Hv.
  destruct (List.filter (fun r => key_match v (r "grade_clean")) l)
    as [|x xs] eqn:F; [reflexivity|].
  exfalso. assert (In x (List.filter (fun r => key_match v (r "grade_clean")) l))
    as Hx by (rewrite F; now left).
  apply filter_In in Hx as [Hx M]. destruct (Hk x Hx) as [k E].
  rewrite (key_match_key v x k E M), Hv in E. discriminate.
Qed.

(** ** The merge, when every left row matches at most one right row *)

Definition matches (right : frame) (right_on : string) (v : cell) : list row :=
  List.filter (fun r => key_match v (r right_on)) (rows right).

Lemma flat_map_single {A B} (f : A -> list B) (g : A -> B) (l : list A) :
  (forall x, In x l -> f x = [g x]) -> flat_map f l = map g l.
Proof.
  induction l as [|x l IH]; intros H; [reflexivity|].
  cbn [flat_map map]. rewrite (H x (or_introl eq_refl)).
  rewrite IH by (intros y Hy; apply H; now right). reflexivity.
Qed.

Lemma merge_left_map left right left_on right_on :
  (forall l, In l (rows left) ->
     (length (matches right right_on (l left_on)) <= 1)%nat) ->
  merge_left left right left_on right_on
  = map (fun l => merge_row (columns left) (columns right) l
                    (head (matches right right_on (l left_on))))
        (rows left).
Proof.
  intros H. unfold merge_left. apply flat_map_single.
  intros l Hl. specialize (H l Hl). unfold matches in *. cbv beta.
  destruct (List.filter (fun r => key_match (l left_on) (r right_on))
                        (rows right)) as [|m [|m' ms]];
    [reflexivity | reflexivity | cbn [length] in H; lia].
Qed.

(** ** Columns set by [with_column] *)

Lemma set_col_same col v r : set_col col v r col = v.
Proof. unfold set_col. now rewrite String.eqb_refl. Qed.

Lemma set_col_other col v r c : c <> col -> set_col col v r c = r c.
Proof.
  unfold set_col. intros H. now destruct (String.eqb_spec c col).
Qed.

Lemma has_column_app cols c extra :
  has_column (cols ++ extra) c = has_column cols c || has_column extra c.
Proof. unfold has_column. apply existsb_app. Qed.

Lemma has_column_with col f df c :
  has_column (columns (with_column col f df)) c
  = has_column (columns df) c || String.eqb c col.
Proof.
  cbn [with_column columns].
  destruct (has_column (columns df) col) eqn:E.
  - destruct (String.eqb_spec c col) as [->|]; [now rewrite E | now rewrite orb_false_r].
  - rewrite has_column_app. cbn. now rewrite orb_false_r.
Qed.

End NormalizerFacts.
Import NormalizerFacts.

Lemma lookup_map {A B} (f : A -> B) (l : list A) (i : nat) :
  map f l !! i = f <$> (l !! i).
Proof.
  revert i. induction l as [|x l IH]; intros [|i]; cbn; auto.
Qed.

(** What [normalize_grades] returns, when it returns. *)
Lemma normalize_grades_returned
    (ratio : list N -> list N -> Q)
    (set_iter : list (list N) -> list (list N))
    (rfq_df reference_df enriched : frame)
    (grade_mapping : gmap (list N) (list N)) :
  normalize_grades ratio set_iter rfq_df reference_df
  = Ok (enriched, grade_mapping) ->
  let rfq_work :=
    with_column "grade_clean" (fun r => clean_cell (r "grade"%string)) rfq_df in
  let ref_clean :=
    deduplicate_reference_data
      (with_column "grade_clean"
         (fun r => clean_cell (r "Grade/Material"%string)) reference_df) in
  grade_mapping = create_grade_mapping ratio set_iter rfq_work ref_clean
  /\ enriched
     = enriched_table
         (with_column "grade_mapped"
            (fun r => map_grade grade_mapping (r "grade_clean"%string)) rfq_work)
         ref_clean.
Proof.
  unfold normalize_grades, join_with_reference. cbv zeta.
  destruct (merge_refused _ _ _); cbn [mbind res_bind]; [discriminate|].
  intros [= <- <-]. split; reflexivity.
Qed.

(** C2 (the code departs from it).  When no cleaned RFQ grade is mapped,
    [grade_mapped] is a float64 column of NaN, and [merge] refuses to join it
    to the text keys of the reference table: whenever the mapping is empty
    and the RFQ table and the deduplicated reference table both have rows,
    [normalize_grades] ends in [ValueError], and there is no enriched table
    for the RFQ rows, which all are rows without mapping. *)
Theorem normalize_grades_unmapped_raises
    (ratio : list N -> list N -> Q)
    (set_iter : list (list N) -> list (list N))
    (rfq_df reference_df : frame) :
  let rfq_work :=
    with_column "grade_clean" (fun r => clean_cell (r "grade"%string)) rfq_df in
  let ref_clean :=
    deduplicate_reference_data
      (with_column "grade_clean"
         (fun r => clean_cell (r "Grade/Material"%string)) reference_df) in
  create_grade_mapping ratio set_iter rfq_work ref_clean = ∅ ->
  rows rfq_df <> [] ->
  rows ref_clean <> [] ->
  normalize_grades ratio set_iter rfq_df reference_df = Raise ValueError.
Proof.
  intros rfq_work ref_clean Hmap Hrfq Href.
  unfold normalize_grades, join_with_reference. cbv zeta.
  fold rfq_work. fold ref_clean. rewrite Hmap.
  unfold merge_refused, mapped_is_float, no_rows.
  rewrite map_size_empty. cbn [Nat.eqb andb with_column rows].
  subst rfq_work. cbn [with_column rows].
  destruct (rows rfq_df) as [|r l]; [congruence|].
  destruct (rows ref_clean) as [|r' l']; [congruence|].
  reflexivity.
Qed.

(** The requests "XYZ" and "ABC" against the reference grade "S235JR". *)
Lemma normalize_grades_unmapped_raises_witness :
  normalize_grades (fun _ _ => 1%Q) one_order rfq_unmapped ref_s235
  = Raise ValueError.
Proof.
  apply normalize_grades_unmapped_raises.
  - vm_compute. reflexivity.
  - discriminate.
  - vm_compute. discriminate.
Defined.



(* ===================================================================== *)
(** * Two runs on the same tables                                       *)
(* ===================================================================== *)

Lemma one_order_ok : set_order one_order.
Proof.
  intros l. split; [apply NoDup_remove_dups | apply elem_of_remove_dups].
Qed.

Lemma other_order_ok : set_order other_order.
Proof.
  intros l. unfold other_order. split.
  - apply NoDup_ListNoDup, NoDup_rev, NoDup_ListNoDup, NoDup_remove_dups.
  - intros x. rewrite list_elem_of_In, <- in_rev, <- list_elem_of_In.
    apply elem_of_remove_dups.
Qed.

(** C8 (the code departs from it).  Two runs of [normalize_grades] on the
    same two tables that differ in the iteration order of sets only: the
    substring fallback maps "S355" to "S355J2H" in one and to "S355NLH" in
    the other, whatever the ratio function is, and the enriched row carries
    the carbon range of the one or of the other. *)
Theorem grade_mapping_depends_on_set_order (ratio : list N -> list N -> Q) :
  set_order one_order /\ set_order other_order
  /\ exists (enriched1 enriched2 : frame)
            (mapping1 mapping2 : gmap (list N) (list N)),
       normalize_grades ratio one_order rfq_s355 ref_s355
       = Ok (enriched1, mapping1)
       /\ normalize_grades ratio other_order rfq_s355 ref_s355
          = Ok (enriched2, mapping2)
       /\ mapping1 !! py "S355" = Some (py "S355J2H")
       /\ mapping2 !! py "S355" = Some (py "S355NLH")
       /\ map (fun r => r "Carbon (C)"%string) (rows enriched1) = [T "≤0.22"]
       /\ map (fun r => r "Carbon (C)"%string) (rows enriched2) = [T "≤0.18"].
Proof.
  split; [exact one_order_ok|]. split; [exact other_order_ok|].
  eexists _, _, _, _.
  split; [vm_compute; reflexivity|]. split; [vm_compute; reflexivity|].
  repeat split; vm_compute; reflexivity.
Qed.

(* ===================================================================== *)
(** * Further properties of the stages                                    *)
(* ===================================================================== *)

(** [categorical_match] is symmetric, and 0 when a value is null. *)
Theorem categorical_match_symmetric (val1 val2 : cell) :
  categorical_match val1 val2 = categorical_match val2 val1
  /\ categorical_match CNull val2 = 0%Q
  /\ categorical_match val1 CNull = 0%Q.
Proof.
  repeat split.
  - unfold categorical_match. rewrite (orb_comm (isna val1)).
    destruct (isna val2 || isna val1); [reflexivity|].
    replace (cell_eq val2 val1) with (cell_eq val1 val2); [reflexivity|].
    destruct val1 as [|a|s], val2 as [|b|t]; try reflexivity; cbn [cell_eq].
    + destruct (Qeq_bool a b) eqn:E1, (Qeq_bool b a) eqn:E2; try reflexivity.
      * apply Qeq_bool_iff in E1. symmetry in E1. apply Qeq_bool_iff in E1.
        congruence.
      * apply Qeq_bool_iff in E2. symmetry in E2. apply Qeq_bool_iff in E2.
        congruence.
    + apply bool_decide_ext. split; congruence.
  - unfold categorical_match. now destruct val1.
Qed.

(** After deduplication every reference row has a text key, no two rows
    share a key, and every row is a row of the input table. *)
Theorem reference_keys_unique (ref_df : frame) :
  List.NoDup (map key (rows (deduplicate_reference_data ref_df)))
  /\ (forall r : row,
        In r (rows (deduplicate_reference_data ref_df)) ->
        (exists k, key r = Some k) /\ In r (rows ref_df)).
Proof.
  destruct (dedup_keys ref_df) as [H1 H2]. split; [exact H1|].
  intros r Hr. split; [now apply H2|].
  cbn [deduplicate_reference_data rows] in Hr.
  apply list_elem_of_In, list_elem_of_omap in Hr as (k & _ & Hk).
  apply select_best_entry_in in Hk. unfold group_of in Hk.
  now apply filter_In in Hk.
Qed.

(* ===================================================================== *)
(** * The grade mapping                                                   *)
(* ===================================================================== *)

Module MappingFacts.

Section Mapping.

Variable ratio : list N -> list N -> Q.
Variable ref_grades : list (list N).

(** The two loop bodies of [create_grade_mapping]. *)
Definition direct_step (mapping : gmap (list N) (list N)) (grade : list N)
    : gmap (list N) (list N) :=
  if bool_decide (grade ∈ ref_grades) then <[grade := grade]> mapping
  else mapping.

Definition fallback_step (mapping : gmap (list N) (list N)) (grade : list N)
    : gmap (list N) (list N) :=
  match get_close_matches ratio grade ref_grades 0.8 with
  | m :: _ => <[grade := m]> mapping
  | [] =>
    match substring_match grade ref_grades with
    | Some ref_grade => <[grade := ref_grade]> mapping
    | None => mapping
    end
  end.

Lemma direct_fold l m0 g :
  fold_left direct_step l m0 !! g
  = if bool_decide (g ∈ l /\ g ∈ ref_grades) then Some g else m0 !! g.
Proof.
  revert m0. induction l as [|x l IH]; intros m0; cbn [fold_left].
  - rewrite bool_decide_eq_false_2; [reflexivity|]. intros [H _].
    now apply elem_of_nil in H.
  - rewrite IH. unfold direct_step.
    destruct (decide (g ∈ l /\ g ∈ ref_grades)) as [[H1 H2]|H].
    + rewrite !bool_decide_eq_true_2; [reflexivity | | now split].
      split; [now right | exact H2].
    + rewrite (bool_decide_eq_false_2 _ H).
      destruct (decide (g = x)) as [->|Hne].
      * destruct (decide (x ∈ ref_grades)) as [Hx|Hx].
        -- rewrite !bool_decide_eq_true_2; [apply lookup_insert_eq| |exact Hx].
           split; [now left | exact Hx].
        -- rewrite (bool_decide_eq_false_2 _ Hx).
           rewrite bool_decide_eq_false_2; [reflexivity|]. now intros [_ ?].
      * assert (~ (g ∈ x :: l /\ g ∈ ref_grades)) as H'.
        { intros [H1 H2]. apply elem_of_cons in H1 as [?|?]; [contradiction|].
          apply H. now split. }
        rewrite (bool_decide_eq_false_2 _ H').
        destruct (bool_decide (x ∈ ref_grades)); [|reflexivity].
        now rewrite lookup_insert_ne.
Qed.

Lemma tuple_max_in (l : list (Q * list N)) p : tuple_max l = Some p -> In p l.
Proof.
  destruct l as [|q l]; [discriminate|]. cbn [tuple_max]. intros [= <-].
  revert q. induction l as [|c l IH]; intros q; cbn [fold_left]; [now left|].
  destruct (tuple_ltb q c).
  - right. apply IH.
  - destruct (IH q) as [<-|H]; [now left | right; now right].
Qed.

Lemma get_close_matches_in word cutoff m rest :
  get_close_matches ratio word ref_grades cutoff = m :: rest ->
  In m ref_grades.
Proof.
  unfold get_close_matches.
  destruct (tuple_max _) as [[s x]|] eqn:E; [|discriminate].
  intros [= <- _]. apply tuple_max_in, in_flat_map in E as (y & Hy & Hin).
  unfold scored in Hin. destruct (_ && _); [|contradiction].
  destruct Hin as [[= _ <-]|[]]. exact Hy.
Qed.

Lemma substring_match_in grade r :
  substring_match grade ref_grades = Some r -> In r ref_grades.
Proof. unfold substring_match. intros H. now apply find_some in H. Qed.

Lemma fallback_fold l m0 g :
  (g ∉ l -> fold_left fallback_step l m0 !! g = m0 !! g)
  /\ (forall v, fold_left fallback_step l m0 !! g = Some v ->
        m0 !! g = Some v \/ (g ∈ l /\ v ∈ ref_grades)).
Proof.
  revert m0. induction l as [|x l IH]; intros m0; cbn [fold_left].
  - split; [reflexivity | now left].
  - destruct (IH (fallback_step m0 x)) as [IH1 IH2].
    assert (forall v, fallback_step m0 x !! g = Some v ->
              m0 !! g = Some v \/ (g = x /\ v ∈ ref_grades)) as Hstep.
    { intros v. unfold fallback_step.
      destruct (get_close_matches ratio x ref_grades 0.8) as [|m rest] eqn:G.
      - destruct (substring_match x ref_grades) as [r|] eqn:S; [|now left].
        destruct (decide (x = g)) as [->|Hne].
        + rewrite lookup_insert_eq. intros [= <-]. right.
          split; [reflexivity|]. now apply substring_match_in, list_elem_of_In in S.
        + rewrite lookup_insert_ne by exact Hne. now left.
      - destruct (decide (x = g)) as [->|Hne].
        + rewrite lookup_insert_eq. intros [= <-]. right.
          split; [reflexivity|].
          now apply get_close_matches_in, list_elem_of_In in G.
        + rewrite lookup_insert_ne by exact Hne. now left. }
    split.
    + intros Hg. apply not_elem_of_cons in Hg as [Hne Hg].
      rewrite (IH1 Hg). unfold fallback_step.
      destruct (get_close_matches ratio x ref_grades 0.8);
        [destruct (substring_match x ref_grades)|];
        try reflexivity; now rewrite lookup_insert_ne.
    + intros v Hv. apply IH2 in Hv as [Hv|[Hg Hv]].
      * apply Hstep in Hv as [Hv|[-> Hv]]; [now left|].
        right. split; [now left | exact Hv].
      * right. split; [now right | exact Hv].
Qed.

End Mapping.

Lemma in_dropna df col g :
  g ∈ dropna df col <-> exists r, In r (rows df) /\ text (r col) = Some g.
Proof.
  unfold dropna. rewrite list_elem_of_omap. split.
  - intros (r & Hr & E). exists r. split; [now apply list_elem_of_In | exact E].
  - intros (r & Hr & E). exists r. split; [now apply list_elem_of_In | exact E].
Qed.

End MappingFacts.
Import MappingFacts.

(** In every run (every iteration order of sets) and for every ratio
    function, the grade mapping sends cleaned RFQ grades to cleaned
    reference grades, and an RFQ grade that is a reference grade to
    itself. *)
Theorem grade_mapping_sound
    (ratio : list N -> list N -> Q)
    (set_iter : list (list N) -> list (list N))
    (rfq_df ref_df : frame) :
  set_order set_iter ->
  let mapping := create_grade_mapping ratio set_iter rfq_df ref_df in
  (forall g m : list N,
     mapping !! g = Some m ->
     g ∈ dropna rfq_df "grade_clean" /\ m ∈ dropna ref_df "grade_clean")
  /\ (forall g : list N,
        g ∈ dropna rfq_df "grade_clean" -> g ∈ dropna ref_df "grade_clean" ->
        mapping !! g = Some g).
Proof.
  intros Hset mapping. subst mapping. unfold create_grade_mapping.
  set (rfq_grades := set_iter (dropna rfq_df "grade_clean")).
  set (ref_grades := set_iter (dropna ref_df "grade_clean")).
  change (fold_left _ rfq_grades ∅) with (fold_left (direct_step ref_grades) rfq_grades ∅).
  set (direct := fold_left (direct_step ref_grades) rfq_grades ∅).
  set (unmatched := set_iter _).
  change (fold_left _ unmatched direct)
    with (fold_left (fallback_step ratio ref_grades) unmatched direct).
  assert (forall g, g ∈ rfq_grades <-> g ∈ dropna rfq_df "grade_clean") as Hrfq
    by (intros g; apply Hset).
  assert (forall g, g ∈ ref_grades <-> g ∈ dropna ref_df "grade_clean") as Href
    by (intros g; apply Hset).
  assert (forall g, g ∈ unmatched <-> g ∈ rfq_grades /\ direct !! g = None) as Hun.
  { intros g. subst unmatched. rewrite (proj2 (Hset _) g).
    rewrite list_elem_of_In, filter_In, <- list_elem_of_In.
    now rewrite bool_decide_eq_true. }
  assert (forall g, direct !! g
            = if bool_decide (g ∈ rfq_grades /\ g ∈ ref_grades)
              then Some g else None) as Hdirect.
  { intros g. subst direct. rewrite direct_fold. now rewrite lookup_empty. }
  split.
  - intros g m H.
    apply (proj2 (fallback_fold ratio ref_grades unmatched direct g)) in H
      as [H|[Hg Hm]].
    + rewrite Hdirect in H. case_bool_decide as Hc; [|discriminate].
      injection H as <-. destruct Hc as [H1 H2].
      split; [now apply Hrfq | now apply Href].
    + apply Hun in Hg as [Hg _]. split; [now apply Hrfq | now apply Href].
  - intros g H1 H2. apply Hrfq in H1. apply Href in H2.
    assert (direct !! g = Some g) as Hd.
    { rewrite Hdirect. now rewrite bool_decide_eq_true_2. }
    rewrite (proj1 (fallback_fold ratio ref_grades unmatched direct g)); [exact Hd|].
    intros Hg. apply Hun in Hg as [_ Hg]. congruence.
Qed.

(** [grade_mapping_sound] in the run of [one_order], with a ratio that is
    always 1, on the sample tables. *)
Lemma grade_mapping_sound_witness :
  py "S355"
    ∈ dropna (with_column "grade_clean"
                (fun r => clean_cell (r "grade"%string)) rfq_s355) "grade_clean"
  /\ py "S355J2H"
      ∈ dropna (with_column "grade_clean"
                  (fun r => clean_cell (r "Grade/Material"%string)) ref_s355)
               "grade_clean".
Proof.
  apply (proj1 (grade_mapping_sound (fun _ _ => 1%Q) one_order _ _ one_order_ok)).
  vm_compute. reflexivity.
Defined.

(* ===================================================================== *)
(** * What a run does not depend on                                       *)
(* ===================================================================== *)

Module OrderFacts.

(** ** The order of texts *)

Lemma pystr_ltb_irrefl s : pystr_ltb s s = false.
Proof.
  induction s as [|a s IH]; [reflexivity|]. cbn [pystr_ltb].
  now rewrite N.ltb_irrefl, N.eqb_refl, IH.
Qed.

Lemma pystr_ltb_cons a s b t :
  pystr_ltb (a :: s) (b :: t) = true
  <-> (a < b)%N \/ (a = b /\ pystr_ltb s t = true).
Proof.
  cbn [pystr_ltb].
  rewrite orb_true_iff, andb_true_iff, N.ltb_lt, N.eqb_eq. tauto.
Qed.

Lemma pystr_ltb_trans s t u :
  pystr_ltb s t = true -> pystr_ltb t u = true -> pystr_ltb s u = true.
Proof.
  revert t u. induction s as [|a s IH]; intros [|b t] [|c u]; try discriminate;
    try reflexivity.
  rewrite !pystr_ltb_cons. intros [H1|[-> H1]] [H2|[-> H2]].
  - left. lia.
  - now left.
  - now left.
  - right. split; [reflexivity|]. eapply IH; eassumption.
Qed.

Lemma pystr_ltb_total s t :
  pystr_ltb s t = false -> pystr_ltb t s = false -> s = t.
Proof.
  revert t. induction s as [|a s IH]; intros [|b t]; try discriminate;
    [reflexivity|].
  intros H1 H2.
  assert (~ ((a < b)%N \/ (a = b /\ pystr_ltb s t = true))) as N1
    by (rewrite <- pystr_ltb_cons; congruence).
  assert (~ ((b < a)%N \/ (b = a /\ pystr_ltb t s = true))) as N2
    by (rewrite <- pystr_ltb_cons; congruence).
  assert (a = b) as -> by lia.
  f_equal. apply IH.
  - destruct (pystr_ltb s t); [exfalso; apply N1; now right | reflexivity].
  - destruct (pystr_ltb t s); [exfalso; apply N2; now right | reflexivity].
Qed.

(** ** The order of (score, text) entries *)

Lemma tuple_ltb_true p q :
  tuple_ltb p q = true
  <-> (fst p < fst q)%Q \/ (fst p == fst q /\ pystr_ltb (snd p) (snd q) = true).
Proof.
  unfold tuple_ltb.
  now rewrite orb_true_iff, andb_true_iff, Qltb_lt, Qeq_bool_iff.
Qed.

Lemma tuple_ltb_trans p q r :
  tuple_ltb p q = true -> tuple_ltb q r = true -> tuple_ltb p r = true.
Proof.
  rewrite !tuple_ltb_true. intros [H1|[E1 H1]] [H2|[E2 H2]].
  - left. lra.
  - left. lra.
  - left. lra.
  - right. split; [lra|]. eapply pystr_ltb_trans; eassumption.
Qed.

(** An entry below neither of two others is below neither's successor. *)
Lemma tuple_ltb_neg_trans p q r :
  tuple_ltb p q = false -> tuple_ltb q r = false -> tuple_ltb p r = false.
Proof.
  intros H1 H2. destruct (tuple_ltb p r) eqn:H3; [|reflexivity]. exfalso.
  assert (~ ((fst p < fst q)%Q
             \/ (fst p == fst q /\ pystr_ltb (snd p) (snd q) = true))) as N1
    by (rewrite <- tuple_ltb_true; congruence).
  assert (~ ((fst q < fst r)%Q
             \/ (fst q == fst r /\ pystr_ltb (snd q) (snd r) = true))) as N2
    by (rewrite <- tuple_ltb_true; congruence).
  apply tuple_ltb_true in H3.
  destruct (Qlt_le_dec (fst p) (fst q)) as [L1|L1]; [apply N1; now left|].
  destruct (Qlt_le_dec (fst q) (fst r)) as [L2|L2]; [apply N2; now left|].
  destruct H3 as [H3|[E3 H3]]; [lra|].
  assert (fst p == fst q) as E1 by lra.
  assert (fst q == fst r) as E2 by lra.
  destruct (pystr_ltb (snd p) (snd q)) eqn:S1; [apply N1; now right|].
  destruct (pystr_ltb (snd q) (snd r)) eqn:S2; [apply N2; now right|].
  destruct (pystr_ltb (snd q) (snd p)) eqn:S3.
  - rewrite (pystr_ltb_trans _ _ _ S3 H3) in S2. discriminate.
  - rewrite (pystr_ltb_total _ _ S1 S3) in H3. congruence.
Qed.

Lemma tuple_ltb_total p q :
  tuple_ltb p q = false -> tuple_ltb q p = false -> snd p = snd q.
Proof.
  intros H1 H2.
  assert (~ ((fst p < fst q)%Q
             \/ (fst p == fst q /\ pystr_ltb (snd p) (snd q) = true))) as N1
    by (rewrite <- tuple_ltb_true; congruence).
  assert (~ ((fst q < fst p)%Q
             \/ (fst q == fst p /\ pystr_ltb (snd q) (snd p) = true))) as N2
    by (rewrite <- tuple_ltb_true; congruence).
  destruct (Qlt_le_dec (fst p) (fst q)) as [L1|L1]; [exfalso; apply N1; now left|].
  destruct (Qlt_le_dec (fst q) (fst p)) as [L2|L2]; [exfalso; apply N2; now left|].
  assert (fst p == fst q) as E by lra.
  apply pystr_ltb_total.
  - destruct (pystr_ltb (snd p) (snd q)); [exfalso; apply N1; now right | reflexivity].
  - destruct (pystr_ltb (snd q) (snd p)); [exfalso; apply N2; right; split; [lra|reflexivity] | reflexivity].
Qed.

(** [max] returns an entry of the list that is below no entry of it. *)
Lemma fold_max_spec rest p :
  let m := fold_left (fun best cand => if tuple_ltb best cand then cand else best)
                     rest p in
  In m (p :: rest) /\ forall q, In q (p :: rest) -> tuple_ltb m q = false.
Proof.
  revert p. induction rest as [|c rest IH]; intros p; cbn [fold_left].
  - split; [now left|]. intros q [<-|[]].
    unfold tuple_ltb. unfold Qltb. rewrite pystr_ltb_irrefl, andb_false_r.
    rewrite orb_false_r, negb_false_iff. apply Qle_bool_iff, Qle_refl.
  - destruct (tuple_ltb p c) eqn:C.
    + destruct (IH c) as [Hin Hmax]. split; [now right|].
      intros q [<-|Hq]; [|now apply Hmax].
      destruct (tuple_ltb _ p) eqn:L; [|reflexivity].
      rewrite <- (Hmax c (or_introl eq_refl)).
      symmetry. eapply tuple_ltb_trans; eassumption.
    + destruct (IH p) as [Hin Hmax]. split.
      * destruct Hin as [<-|Hin]; [now left | right; now right].
      * intros q [<-|[<-|Hq]].
        -- apply Hmax. now left.
        -- eapply tuple_ltb_neg_trans; [apply Hmax; now left | exact C].
        -- apply Hmax. now right.
Qed.

Lemma tuple_max_spec l m :
  tuple_max l = Some m ->
  In m l /\ forall q, In q l -> tuple_ltb m q = false.
Proof.
  destruct l as [|p rest]; [discriminate|]. cbn [tuple_max].
  intros [= <-]. apply fold_max_spec.
Qed.

(** The greatest entry does not depend on the order of the entries. *)
Lemma tuple_max_perm l1 l2 :
  Permutation l1 l2 ->
  snd <$> tuple_max l1 = snd <$> tuple_max l2.
Proof.
  intros P.
  destruct (tuple_max l1) as [m1|] eqn:E1, (tuple_max l2) as [m2|] eqn:E2.
  - apply tuple_max_spec in E1 as [I1 M1], E2 as [I2 M2]. cbn. f_equal.
    apply tuple_ltb_total.
    + apply M1. eapply Permutation_in; [symmetry; exact P | exact I2].
    + apply M2. eapply Permutation_in; [exact P | exact I1].
  - destruct l2 as [|? ?]; [|discriminate].
    apply Permutation_nil_r in P. subst. discriminate.
  - destruct l1 as [|? ?]; [|discriminate].
    apply Permutation_nil in P. subst. discriminate.
  - reflexivity.
Qed.

End OrderFacts.
Import OrderFacts.

(** The fuzzy step does not depend on the run: [get_close_matches] returns
    the same match for every order of the same possibilities. *)
Theorem get_close_matches_order_free
    (ratio : list N -> list N -> Q) (word : list N) (cutoff : Q)
    (possibilities1 possibilities2 : list (list N)) :
  Permutation possibilities1 possibilities2 ->
  get_close_matches ratio word possibilities1 cutoff
  = get_close_matches ratio word possibilities2 cutoff.
Proof.
  intros P. unfold get_close_matches.
  pose proof (tuple_max_perm _ _
                (Permutation_flat_map (scored ratio word cutoff) P)) as E.
  destruct (tuple_max (flat_map _ possibilities1)) as [[s1 x1]|],
           (tuple_max (flat_map _ possibilities2)) as [[s2 x2]|];
    cbn in E; congruence.
Qed.

Lemma get_close_matches_order_free_witness :
  get_close_matches (fun _ _ => 1%Q) (py "S355J2")
    [py "S355J2H"; py "S355JR"] 0.8
  = get_close_matches (fun _ _ => 1%Q) (py "S355J2")
      [py "S355JR"; py "S355J2H"] 0.8.
Proof.
  apply get_close_matches_order_free. apply perm_swap.
Defined.

Module DeterminismFacts.

Section Fallback.

Variable ratio : list N -> list N -> Q.
Variable ref_grades : list (list N).

(** What the fallback loop stores for a grade, if anything. *)
Definition fallback_value (grade : list N) : option (list N) :=
  match get_close_matches ratio grade ref_grades 0.8 with
  | m :: _ => Some m
  | [] => substring_match grade ref_grades
  end.

Lemma fallback_step_value m x :
  fallback_step ratio ref_grades m x
  = match fallback_value x with
    | Some v => <[x := v]> m
    | None => m
    end.
Proof.
  unfold fallback_step, fallback_value.
  now destruct (get_close_matches ratio x ref_grades 0.8).
Qed.

Lemma fallback_fold_lookup l m0 g :
  fold_left (fallback_step ratio ref_grades) l m0 !! g
  = if bool_decide (g ∈ l)
    then match fallback_value g with
         | Some v => Some v
         | None => m0 !! g
         end
    else m0 !! g.
Proof.
  revert m0. induction l as [|x l IH]; intros m0; cbn [fold_left].
  - rewrite bool_decide_eq_false_2; [reflexivity | apply not_elem_of_nil].
  - rewrite IH, fallback_step_value.
    destruct (decide (g = x)) as [->|Hne].
    + rewrite (bool_decide_eq_true_2 (x ∈ x :: l)) by now left.
      destruct (fallback_value x) as [v|] eqn:V.
      * rewrite lookup_insert_eq. now destruct (bool_decide (x ∈ l)).
      * now destruct (bool_decide (x ∈ l)).
    + assert (bool_decide (g ∈ x :: l) = bool_decide (g ∈ l)) as ->.
      { apply bool_decide_ext. rewrite elem_of_cons. tauto. }
      destruct (fallback_value x) as [v|]; [|reflexivity].
      now rewrite lookup_insert_ne.
Qed.

End Fallback.

Lemma find_unique {A} (f : A -> bool) (l1 l2 : list A) :
  Permutation l1 l2 ->
  (forall x y, In x l1 -> In y l1 -> f x = true -> f y = true -> x = y) ->
  find f l1 = find f l2.
Proof.
  intros P U.
  destruct (find f l1) as [x|] eqn:E1, (find f l2) as [y|] eqn:E2;
    try reflexivity.
  - apply find_some in E1 as [I1 F1], E2 as [I2 F2]. f_equal.
    apply U; auto. eapply Permutation_in; [symmetry; exact P | exact I2].
  - apply find_some in E1 as [I1 F1].
    rewrite (find_none _ _ E2 x) in F1; [discriminate|].
    eapply Permutation_in; [exact P | exact I1].
  - apply find_some in E2 as [I2 F2].
    rewrite (find_none _ _ E1 y) in F2; [discriminate|].
    eapply Permutation_in; [symmetry; exact P | exact I2].
Qed.

Lemma set_orders_perm o1 o2 l :
  set_order o1 -> set_order o2 -> Permutation (o1 l) (o2 l).
Proof.
  intros H1 H2. apply NoDup_Permutation; [apply H1 | apply H2|].
  intros x. now rewrite (proj2 (H1 l) x), (proj2 (H2 l) x).
Qed.

(** The lookups of the mapping of one run. *)
Lemma create_grade_mapping_lookup ratio set_iter rfq_df ref_df g :
  set_order set_iter ->
  create_grade_mapping ratio set_iter rfq_df ref_df !! g
  = if bool_decide (g ∈ dropna rfq_df "grade_clean")
    then if bool_decide (g ∈ dropna ref_df "grade_clean") then Some g
         else fallback_value ratio (set_iter (dropna ref_df "grade_clean")) g
    else None.
Proof.
  intros Hset. unfold create_grade_mapping.
  set (rfq_grades := set_iter (dropna rfq_df "grade_clean")).
  set (ref_grades := set_iter (dropna ref_df "grade_clean")).
  change (fold_left _ rfq_grades ∅) with (fold_left (direct_step ref_grades) rfq_grades ∅).
  set (direct := fold_left (direct_step ref_grades) rfq_grades ∅).
  set (unmatched := set_iter _).
  change (fold_left _ unmatched direct)
    with (fold_left (fallback_step ratio ref_grades) unmatched direct).
  assert (direct !! g
          = if bool_decide (g ∈ rfq_grades /\ g ∈ ref_grades)
            then Some g else None) as Hdirect.
  { subst direct. rewrite direct_fold. now rewrite lookup_empty. }
  assert (g ∈ unmatched <-> g ∈ rfq_grades /\ direct !! g = None) as Hun.
  { subst unmatched. rewrite (proj2 (Hset _) g).
    rewrite list_elem_of_In, filter_In, <- list_elem_of_In.
    now rewrite bool_decide_eq_true. }
  pose proof (proj2 (Hset (dropna rfq_df "grade_clean")) g) as Hrfq.
  pose proof (proj2 (Hset (dropna ref_df "grade_clean")) g) as Href.
  fold rfq_grades in Hrfq. fold ref_grades in Href.
  rewrite fallback_fold_lookup.
  destruct (decide (g ∈ dropna rfq_df "grade_clean")) as [R|R].
  - rewrite (bool_decide_eq_true_2 _ R).
    destruct (decide (g ∈ dropna ref_df "grade_clean")) as [F|F].
    + rewrite (bool_decide_eq_true_2 _ F).
      assert (direct !! g = Some g) as Hd.
      { rewrite Hdirect, bool_decide_eq_true_2; [reflexivity|]. tauto. }
      rewrite bool_decide_eq_false_2; [exact Hd|].
      rewrite Hun, Hd. now intros [_ ?].
    + rewrite (bool_decide_eq_false_2 _ F).
      assert (direct !! g = None) as Hd.
      { rewrite Hdirect, bool_decide_eq_false_2; [reflexivity|]. tauto. }
      rewrite bool_decide_eq_true_2 by (apply Hun; tauto).
      rewrite Hd. now destruct (fallback_value ratio ref_grades g).
  - rewrite (bool_decide_eq_false_2 _ R).
    assert (direct !! g = None) as Hd.
    { rewrite Hdirect, bool_decide_eq_false_2; [reflexivity|]. tauto. }
    rewrite bool_decide_eq_false_2; [exact Hd|]. rewrite Hun. tauto.
Qed.

End DeterminismFacts.
Import DeterminismFacts.

(** Two runs build the same grade mapping when the substring fallback is
    never offered two candidates: for every RFQ grade that has no exact and
    no fuzzy match, at most one reference grade holds it or is held by it. *)
Theorem grade_mapping_order_free
    (ratio : list N -> list N -> Q)
    (set_iter1 set_iter2 : list (list N) -> list (list N))
    (rfq_df ref_df : frame) :
  set_order set_iter1 -> set_order set_iter2 ->
  (forall g r1 r2 : list N,
     g ∈ dropna rfq_df "grade_clean" -> g ∉ dropna ref_df "grade_clean" ->
     get_close_matches ratio g (set_iter1 (dropna ref_df "grade_clean")) 0.8 = [] ->
     r1 ∈ dropna ref_df "grade_clean" -> r2 ∈ dropna ref_df "grade_clean" ->
     substring_candidate g r1 = true -> substring_candidate g r2 = true ->
     r1 = r2) ->
  create_grade_mapping ratio set_iter1 rfq_df ref_df
  = create_grade_mapping ratio set_iter2 rfq_df ref_df.
Proof.
  intros H1 H2 U. apply map_eq. intros g.
  rewrite !create_grade_mapping_lookup by assumption.
  case_bool_decide as R; [|reflexivity].
  case_bool_decide as F; [reflexivity|].
  pose proof (set_orders_perm set_iter1 set_iter2
                (dropna ref_df "grade_clean") H1 H2) as P.
  unfold fallback_value.
  rewrite <- (get_close_matches_order_free ratio g 0.8 _ _ P).
  destruct (get_close_matches ratio g (set_iter1 _) 0.8) eqn:G; [|reflexivity].
  unfold substring_match. apply find_unique; [exact P|].
  intros x y Hx Hy Fx Fy.
  apply list_elem_of_In in Hx, Hy.
  apply (proj2 (H1 (dropna ref_df "grade_clean"))) in Hx, Hy.
  exact (U g x y R F G Hx Hy Fx Fy).
Qed.

(** [grade_mapping_order_free] on the sample tables: the two orders iterate
    the two reference grades in opposite directions, no grade comes near
    "S355", and "S355J2H" alone holds it. *)
Lemma grade_mapping_order_free_witness :
  one_order (dropna ref_keys "grade_clean")
  <> other_order (dropna ref_keys "grade_clean")
  /\ create_grade_mapping (fun _ _ => 1%Q) one_order rfq_keys ref_keys
     = create_grade_mapping (fun _ _ => 1%Q) other_order rfq_keys ref_keys.
Proof.
  split; [vm_compute; discriminate|].
  apply grade_mapping_order_free; [exact one_order_ok | exact other_order_ok |].
  intros g r1 r2 Hg _ _ Hr1 Hr2 S1 S2.
  change (g ∈ [py "S355"]) in Hg.
  change (r1 ∈ [py "S355J2H"; py "DX51D"]) in Hr1.
  change (r2 ∈ [py "S355J2H"; py "DX51D"]) in Hr2.
  apply list_elem_of_singleton in Hg. subst g.
  apply elem_of_cons in Hr1 as [->|Hr1], Hr2 as [->|Hr2];
    try apply list_elem_of_singleton in Hr1;
    try apply list_elem_of_singleton in Hr2; subst;
    try reflexivity; vm_compute in S1, S2; discriminate.
Defined.

(* ===================================================================== *)
(** * More on the interval overlap                                        *)
(* ===================================================================== *)

Module OverlapFacts.

#[local] Open Scope Q_scope.

Lemma Qltb_compat a b c d : a == c -> b == d -> Qltb a b = Qltb c d.
Proof.
  intros E1 E2. destruct (Qltb a b) eqn:L, (Qltb c d) eqn:R; try reflexivity.
  - apply Qltb_lt in L. apply Qltb_ge in R. lra.
  - apply Qltb_ge in L. apply Qltb_lt in R. lra.
Qed.

Lemma overlap_of_sym a1 b1 a2 b2 :
  overlap_of a1 b1 a2 b2 == overlap_of a2 b2 a1 b1.
Proof.
  unfold overlap_of.
  now rewrite (Q.min_comm (Qmax a1 b1)), (Q.max_comm (Qmin a1 b1)).
Qed.

Lemma union_of_sym a1 b1 a2 b2 :
  union_of a1 b1 a2 b2 == union_of a2 b2 a1 b1.
Proof.
  unfold union_of.
  now rewrite (Q.max_comm (Qmax a1 b1)), (Q.min_comm (Qmin a1 b1)).
Qed.

Lemma overlap_of_swap a1 b1 a2 b2 :
  overlap_of a1 b1 a2 b2 == overlap_of b1 a1 a2 b2.
Proof.
  unfold overlap_of. now rewrite (Q.max_comm a1), (Q.min_comm a1).
Qed.

Lemma union_of_swap a1 b1 a2 b2 :
  union_of a1 b1 a2 b2 == union_of b1 a1 a2 b2.
Proof.
  unfold union_of. now rewrite (Q.max_comm a1), (Q.min_comm a1).
Qed.

(** The ratio of two intervals from their overlap and union. *)
Lemma ratio_compat o1 u1 o2 u2 :
  o1 == o2 -> u1 == u2 ->
  (if Qltb 0 u1 then o1 / u1 else 0) == (if Qltb 0 u2 then o2 / u2 else 0).
Proof.
  intros Eo Eu. rewrite (Qltb_compat 0 u1 0 u2) by (lra || exact Eu).
  destruct (Qltb 0 u2); [|reflexivity]. now rewrite Eo, Eu.
Qed.

Lemma overlap_of_point a c d : overlap_of a a c d == 0.
Proof. unfold overlap_of. minmax_cases; lra. Qed.

Lemma interval_overlap_ratio_sym min1 max1 min2 max2 :
  interval_overlap_ratio min1 max1 min2 max2
  == interval_overlap_ratio min2 max2 min1 max1.
Proof.
  destruct min1 as [a1|], max1 as [b1|], min2 as [a2|], max2 as [b2|];
    try reflexivity.
  rewrite !interval_overlap_ratio_some.
  apply ratio_compat; [apply overlap_of_sym | apply union_of_sym].
Qed.

Lemma interval_overlap_ratio_point a min2 max2 :
  interval_overlap_ratio (Some a) (Some a) min2 max2 == 0.
Proof.
  destruct min2 as [c|], max2 as [d|]; try reflexivity.
  rewrite interval_overlap_ratio_some.
  destruct (Qltb 0 (union_of a a c d)) eqn:U; [|reflexivity].
  rewrite overlap_of_point. apply Qltb_lt in U. field. lra.
Qed.

End OverlapFacts.
Import OverlapFacts.



(* ===================================================================== *)
(** * The results the range parser can give                               *)
(* ===================================================================== *)

Module ShapeFacts.

#[local] Open Scope Q_scope.

(** The five forms of a result of [parse_single_range]: nothing, an upper
    bound with its half, a lower bound alone, a range with its middle, a
    single value. *)
Inductive parsed_shape : option Q * option Q * option Q -> Prop :=
| shape_none : parsed_shape (None, None, None)
| shape_upper (hi : Q) :
    0 <= hi -> parsed_shape (None, Some hi, Some (hi / 2))
| shape_lower (lo : Q) :
    0 <= lo -> parsed_shape (Some lo, None, None)
| shape_range (lo hi : Q) :
    0 <= lo -> 0 <= hi -> parsed_shape (Some lo, Some hi, Some ((lo + hi) / 2))
| shape_single (v : Q) :
    0 <= v -> parsed_shape (None, None, Some v).

Definition range_input (value_str : option (list N)) : bool :=
  match value_str with
  | Some s => range_text s
  | None => true
  end.

Lemma float_of_token_nonneg tok q : float_of_token tok = Some q -> 0 <= q.
Proof.
  unfold float_of_token.
  destruct (negb (forallb is_num_char tok)); [discriminate|].
  destruct (split_dot tok) as [ip [fp|]].
  - destruct (contains_char DOT fp); [discriminate|].
    destruct ip, fp; intros [= <-]; unfold Qle; cbn [Qnum Qden]; lia.
  - destruct ip; intros [= <-]; unfold Qle; cbn [Qnum Qden]; lia.
Qed.

Lemma float_nonneg tok q : float tok = Ok q -> 0 <= q.
Proof.
  unfold float. destruct (float_of_token tok) eqn:E; [|discriminate].
  intros [= <-]. eapply float_of_token_nonneg, E.
Qed.

Lemma parse_body_shape value_str clean_str t :
  parse_body value_str clean_str = Ok (Some t) -> parsed_shape t.
Proof.
  unfold parse_body.
  destruct (has_le value_str).
  { destruct (index (findall_numbers clean_str) 0) as [tok|]; [|discriminate].
    cbn [mbind res_bind]. destruct (float tok) eqn:F; [|discriminate].
    cbn [mbind res_bind]. intros [= <-]. constructor. eapply float_nonneg, F. }
  destruct (has_ge value_str).
  { destruct (index (findall_numbers clean_str) 0) as [tok|]; [|discriminate].
    cbn [mbind res_bind]. destruct (float tok) eqn:F; [|discriminate].
    cbn [mbind res_bind]. intros [= <-]. constructor. eapply float_nonneg, F. }
  destruct (has_dash clean_str).
  { destruct (2 <=? length (findall_numbers clean_str))%nat; [|discriminate].
    destruct (index (findall_numbers clean_str) 0) as [tok0|]; [|discriminate].
    cbn [mbind res_bind]. destruct (float tok0) eqn:F0; [|discriminate].
    cbn [mbind res_bind].
    destruct (index (findall_numbers clean_str) 1) as [tok1|]; [|discriminate].
    cbn [mbind res_bind]. destruct (float tok1) eqn:F1; [|discriminate].
    cbn [mbind res_bind]. intros [= <-].
    constructor; eapply float_nonneg; eassumption. }
  destruct (findall_numbers clean_str) as [|tok l] eqn:E; [discriminate|].
  destruct (index (tok :: l) 0) as [tok'|]; [|discriminate].
  cbn [mbind res_bind]. destruct (float tok') eqn:F; [|discriminate].
  cbn [mbind res_bind]. intros [= <-]. constructor. eapply float_nonneg, F.
Qed.

End ShapeFacts.
Import ShapeFacts.



(* ===================================================================== *)
(** * Grades that are written differently                                 *)
(* ===================================================================== *)

Module CanonicalFacts.

(** A grade without its spaces and dashes, in upper case. *)
Definition squeezed (g : list N) : list N :=
  upper (remove_char DASH (remove_char SPACE g)).

Definition kept (c : N) : bool := negb ((c =? SPACE)%N || (c =? DASH)%N).

Lemma kept_upper_char c : kept (upper_char c) = kept c.
Proof.
  unfold kept, upper_char, SPACE, DASH.
  destruct (islower_ascii c) eqn:L; [|reflexivity].
  apply islower_true in L. f_equal.
  transitivity false; [|symmetry];
    rewrite orb_false_iff, !N.eqb_neq; lia.
Qed.

Lemma filter_kept_upper s :
  List.filter kept (upper s) = upper (List.filter kept s).
Proof.
  induction s as [|c s IH]; [reflexivity|].
  cbn [upper map List.filter]. rewrite kept_upper_char.
  destruct (kept c); cbn [upper map]; [f_equal|]; exact IH.
Qed.

Lemma filter_kept_before_plus s :
  List.filter kept (before_plus s) = before_plus (List.filter kept s).
Proof.
  induction s as [|c s IH]; [reflexivity|].
  cbn [before_plus List.filter].
  destruct (N.eqb_spec c PLUS) as [->|Hc].
  - reflexivity.
  - cbn [List.filter]. destruct (kept c); cbn [before_plus]; [|exact IH].
    apply N.eqb_neq in Hc. rewrite Hc. f_equal. exact IH.
Qed.

Lemma filter_kept_lstrip s :
  forallb plain_spaced s = true ->
  List.filter kept (lstrip s) = List.filter kept s.
Proof.
  induction s as [|c s IH]; [reflexivity|].
  cbn [forallb lstrip]. rewrite andb_true_iff. intros [Hc Hs].
  destruct (isspace c) eqn:W; [|reflexivity].
  unfold plain_spaced in Hc. rewrite W in Hc. cbn [negb orb] in Hc.
  cbn [List.filter]. unfold kept at 2. rewrite Hc. cbn [orb negb]. auto.
Qed.

Lemma forallb_rev {A} (p : A -> bool) (l : list A) :
  forallb p l = true -> forallb p (rev l) = true.
Proof.
  rewrite !forallb_forall. intros H x Hx. apply H. now apply in_rev.
Qed.

Lemma forallb_lstrip p s :
  forallb p s = true -> forallb p (lstrip s) = true.
Proof.
  rewrite !forallb_forall. intros H x Hx. apply H. eapply lstrip_incl, Hx.
Qed.

Lemma filter_kept_strip s :
  forallb plain_spaced s = true ->
  List.filter kept (strip s) = List.filter kept s.
Proof.
  intros H. unfold strip, rstrip.
  rewrite filter_rev, filter_kept_lstrip, filter_rev, rev_involutive.
  - now apply filter_kept_lstrip.
  - now apply forallb_rev, forallb_lstrip.
Qed.

Lemma plain_spaced_of_plain g :
  plain_grade (Some g) = true -> forallb plain_spaced g = true.
Proof.
  cbn [plain_grade]. rewrite !forallb_forall. intros H x Hx.
  apply H in Hx. now apply andb_true_iff in Hx.
Qed.

(** The cleaned text of a plain grade is what stands before the first ['+']
    of its squeezed form. *)
Lemma clean_core_squeezed g :
  forallb plain_spaced g = true -> clean_core g = before_plus (squeezed g).
Proof.
  intros H.
  assert (contains_char LF g = false) as Hlf.
  { apply contains_char_false. intros Hin.
    rewrite forallb_forall in H. apply H in Hin. discriminate. }
  unfold clean_core, squeezed.
  rewrite re_sub_plus_no_lf by (now apply no_lf_upper_strip).
  rewrite !remove_two. fold kept.
  rewrite filter_kept_before_plus, filter_kept_upper, filter_kept_strip by exact H.
  reflexivity.
Qed.

End CanonicalFacts.
Import CanonicalFacts.



(* ===================================================================== *)
(** * Stages that add columns in a loop                                   *)
(* ===================================================================== *)

(** [parse_range_strings], [create_dimension_intervals] and
    [standardize_categorical_features] are loops over a fixed list; a step
    is taken when the columns it reads are columns of the table, and then
    sets the columns it writes, row by row. *)
Module StageFacts.

#[local] Open Scope string_scope.

(** [has_column] after [df[col] = ...]. *)
Lemma has_add_column cols x c :
  has_column (add_column cols x) c = has_column cols c || String.eqb c x.
Proof.
  unfold add_column. destruct (has_column cols x) eqn:H.
  - destruct (String.eqb_spec c x) as [->|_]; [now rewrite H | now rewrite orb_false_r].
  - rewrite has_column_app. cbn [has_column existsb]. now rewrite orb_false_r.
Qed.

Lemma has_fold_add_column W cols c :
  has_column (fold_left add_column W cols) c
  = has_column cols c || has_column W c.
Proof.
  revert cols. induction W as [|x W IH]; intros cols; cbn [fold_left].
  - cbn. now rewrite orb_false_r.
  - rewrite IH, has_add_column. cbn [has_column existsb].
    now rewrite orb_assoc.
Qed.

Lemma has_column_In cols c : has_column cols c = true <-> In c cols.
Proof.
  unfold has_column. rewrite existsb_exists. split.
  - intros (x & Hx & E). apply String.eqb_eq in E. now subst.
  - intros H. exists c. split; [exact H | apply String.eqb_refl].
Qed.

Lemma has_column_not_In cols c : has_column cols c = false <-> ~ In c cols.
Proof.
  rewrite <- has_column_In. destruct (has_column cols c); split; congruence.
Qed.

(** Names without repeats, as a test. *)
Fixpoint distinct (l : list string) : bool :=
  match l with
  | [] => true
  | x :: l' => negb (has_column l' x) && distinct l'
  end.

Lemma distinct_NoDup l : distinct l = true -> List.NoDup l.
Proof.
  induction l as [|x l IH]; cbn [distinct]; [constructor|].
  rewrite andb_true_iff, negb_true_iff, has_column_not_In.
  intros [H1 H2]. constructor; auto.
Qed.

Section Stage.

Context {K : Type}.
Variable reads : K -> list string.
Variable writes : K -> list string.
Variable upd : K -> row -> row.
Variable step : frame -> K -> frame.

Definition taken (cols : list string) (k : K) : bool :=
  forallb (has_column cols) (reads k).

Hypothesis step_rows : forall df k,
  rows (step df k)
  = if taken (columns df) k then map (upd k) (rows df) else rows df.
Hypothesis step_columns : forall df k,
  columns (step df k)
  = if taken (columns df) k then fold_left add_column (writes k) (columns df)
    else columns df.
Hypothesis upd_other : forall k r c, ~ In c (writes k) -> upd k r c = r c.
Hypothesis upd_reads : forall k r1 r2,
  (forall c, In c (reads k) -> r1 c = r2 c) ->
  forall c, In c (writes k) -> upd k r1 c = upd k r2 c.

(** What the loop does to the columns and to one row. *)
Fixpoint run_columns (L : list K) (cols : list string) : list string :=
  match L with
  | [] => cols
  | k :: L' =>
    if taken cols k then run_columns L' (fold_left add_column (writes k) cols)
    else run_columns L' cols
  end.

Fixpoint run (L : list K) (cols : list string) (r : row) : row :=
  match L with
  | [] => r
  | k :: L' =>
    if taken cols k
    then run L' (fold_left add_column (writes k) cols) (upd k r)
    else run L' cols r
  end.

Lemma fold_columns L df :
  columns (fold_left step L df) = run_columns L (columns df).
Proof using step_columns.
  revert df. induction L as [|k L IH]; intros df; cbn [fold_left run_columns];
    [reflexivity|].
  rewrite IH, step_columns. now destruct (taken (columns df) k).
Qed.

Lemma fold_rows L df :
  rows (fold_left step L df) = map (run L (columns df)) (rows df).
Proof using step_rows step_columns.
  revert df. induction L as [|k L IH]; intros df; cbn [fold_left run].
  - now rewrite map_id.
  - rewrite IH, step_columns, step_rows.
    destruct (taken (columns df) k); [|reflexivity].
    now rewrite map_map.
Qed.

Lemma run_columns_app L1 L2 cols :
  run_columns (L1 ++ L2) cols = run_columns L2 (run_columns L1 cols).
Proof.
  revert cols. induction L1 as [|k L1 IH]; intros cols; cbn [app run_columns];
    [reflexivity|].
  destruct (taken cols k); apply IH.
Qed.

Lemma run_app L1 L2 cols r :
  run (L1 ++ L2) cols r = run L2 (run_columns L1 cols) (run L1 cols r).
Proof.
  revert cols r. induction L1 as [|k L1 IH]; intros cols r;
    cbn [app run run_columns]; [reflexivity|].
  destruct (taken cols k); apply IH.
Qed.

(** No column is lost. *)
Lemma run_columns_keeps L cols c :
  has_column cols c = true -> has_column (run_columns L cols) c = true.
Proof.
  revert cols. induction L as [|k L IH]; intros cols H; cbn [run_columns];
    [exact H|].
  destruct (taken cols k); apply IH; [|exact H].
  now rewrite has_fold_add_column, H.
Qed.

(** A name no step writes is a column after the loop only if it was one
    before, and keeps its values. *)
Lemma run_columns_other L cols c :
  ~ In c (flat_map writes L) ->
  has_column (run_columns L cols) c = has_column cols c.
Proof.
  revert cols. induction L as [|k L IH]; intros cols H; cbn [run_columns];
    [reflexivity|].
  cbn [flat_map] in H. rewrite in_app_iff in H.
  destruct (taken cols k); rewrite IH by tauto; [|reflexivity].
  rewrite has_fold_add_column.
  replace (has_column (writes k) c) with false; [apply orb_false_r|].
  symmetry. apply has_column_not_In. tauto.
Qed.

Lemma run_other L cols r c :
  ~ In c (flat_map writes L) -> run L cols r c = r c.
Proof using upd_other.
  revert cols r. induction L as [|k L IH]; intros cols r H; cbn [run];
    [reflexivity|].
  cbn [flat_map] in H. rewrite in_app_iff in H.
  destruct (taken cols k); rewrite IH by tauto; [|reflexivity].
  apply upd_other. tauto.
Qed.

Lemma taken_ext cols cols' k :
  (forall c, In c (reads k) -> has_column cols' c = has_column cols c) ->
  taken cols' k = taken cols k.
Proof.
  unfold taken. induction (reads k) as [|c l IH]; intros H; [reflexivity|].
  cbn [forallb]. rewrite H by (now left). f_equal. apply IH.
  intros c' Hc'. apply H. now right.
Qed.

(** The steps are independent when no step writes a column that a step
    reads, and no column is written twice. *)
Definition independent (L : list K) : bool :=
  forallb (fun k => forallb (fun c => negb (has_column (flat_map writes L) c))
                            (reads k)) L
  && distinct (flat_map writes L).

Lemma independent_reads L k c :
  independent L = true -> In k L -> In c (reads k) ->
  ~ In c (flat_map writes L).
Proof.
  unfold independent. rewrite andb_true_iff, forallb_forall. intros [H _] Hk Hc.
  specialize (H k Hk). rewrite forallb_forall in H. specialize (H c Hc).
  now apply negb_true_iff, has_column_not_In in H.
Qed.

(** The columns a taken step writes hold, after the loop, what the step
    computes from the row the loop started with. *)
Lemma run_written L cols r k c :
  independent L = true ->
  In k L -> taken cols k = true -> In c (writes k) ->
  run L cols r c = upd k r c /\ has_column (run_columns L cols) c = true.
Proof using upd_other upd_reads.
  intros HI Hk Ht Hc.
  pose proof (fun k c => independent_reads L k c HI) as Hreads.
  assert (List.NoDup (flat_map writes L)) as Hnd.
  { apply distinct_NoDup. unfold independent in HI.
    now apply andb_true_iff in HI. }
  destruct (in_split k L Hk) as (L1 & L2 & ->).
  rewrite flat_map_app in Hnd. cbn [flat_map] in Hnd.
  assert (forall x, In x (reads k) -> ~ In x (flat_map writes L1)) as Hr1.
  { intros x Hx Hin. apply (Hreads k x); [apply in_elt | exact Hx |].
    rewrite flat_map_app. apply in_or_app. now left. }
  assert (~ In c (flat_map writes L2)) as Hc2.
  { apply NoDup_app_remove_l in Hnd.
    intros Hin. revert Hnd Hc Hin. generalize (writes k) (flat_map writes L2).
    intros W l Hnd Hc Hin. induction W as [|w W IHW]; [destruct Hc|].
    cbn [app] in Hnd. apply List.NoDup_cons_iff in Hnd as [Hw Hnd].
    destruct Hc as [->|Hc]; [|auto]. apply Hw, in_or_app. now right. }
  assert (taken (run_columns L1 cols) k = true) as Ht1.
  { rewrite <- Ht. apply taken_ext. intros x Hx.
    apply run_columns_other. auto. }
  rewrite run_app, run_columns_app. cbn [run run_columns]. rewrite Ht1. split.
  - rewrite run_other by exact Hc2.
    apply upd_reads; [|exact Hc]. intros x Hx. apply run_other. auto.
  - apply run_columns_keeps. rewrite has_fold_add_column.
    replace (has_column (writes k) c) with true; [apply orb_true_r|].
    symmetry. now apply has_column_In.
Qed.

End Stage.

End StageFacts.
Import StageFacts.

(* ===================================================================== *)
(** * The interval columns                                                *)
(* ===================================================================== *)

Module IntervalFacts.

#[local] Open Scope string_scope.

Definition pair_reads (p : string * string) : list string := [fst p; snd p].

Definition interval_names (p : string * string) : list string :=
  let f := feature_name_of (fst p) in
  [f ++ "_interval_min"; f ++ "_interval_max"; f ++ "_center"; f ++ "_width"].

(** One row through the four assignments of [add_interval]. *)
Definition interval_row (p : string * string) (r : row) : row :=
  let f := feature_name_of (fst p) in
  let r1 := set_col (f ++ "_interval_min") (r (fst p)) r in
  let r2 := set_col (f ++ "_interval_max") (fillna (r1 (snd p)) (r1 (fst p))) r1 in
  let r3 := set_col (f ++ "_center")
              (cell_op Qdiv (cell_op Qplus (r2 (f ++ "_interval_min"))
                                           (r2 (f ++ "_interval_max")))
                       (CNum 2)) r2 in
  set_col (f ++ "_width")
    (cell_op Qminus (r3 (f ++ "_interval_max")) (r3 (f ++ "_interval_min"))) r3.

Definition interval_step (df : frame) (p : string * string) : frame :=
  let '(min_col, max_col) := p in
  if has_column (columns df) min_col && has_column (columns df) max_col
  then add_interval df min_col max_col
  else df.

Lemma create_dimension_intervals_fold df :
  create_dimension_intervals df = fold_left interval_step dimension_pairs df.
Proof. reflexivity. Qed.

Lemma taken_pair cols a b :
  taken pair_reads cols (a, b) = has_column cols a && has_column cols b.
Proof. unfold taken, pair_reads. cbn [forallb fst snd]. now rewrite andb_true_r. Qed.

Lemma interval_step_rows df p :
  rows (interval_step df p)
  = if taken pair_reads (columns df) p then map (interval_row p) (rows df)
    else rows df.
Proof.
  destruct p as [a b]. rewrite taken_pair. unfold interval_step.
  destruct (has_column (columns df) a && has_column (columns df) b);
    [|reflexivity].
  unfold add_interval, with_column. cbn [rows]. rewrite !map_map. reflexivity.
Qed.

Lemma interval_step_columns df p :
  columns (interval_step df p)
  = if taken pair_reads (columns df) p
    then fold_left add_column (interval_names p) (columns df)
    else columns df.
Proof.
  destruct p as [a b]. rewrite taken_pair. unfold interval_step.
  destruct (has_column (columns df) a && has_column (columns df) b);
    reflexivity.
Qed.

Lemma interval_row_other p r c :
  ~ In c (interval_names p) -> interval_row p r c = r c.
Proof.
  unfold interval_names, interval_row. cbn [In]. intros H.
  rewrite !set_col_other; [reflexivity|..]; intros ->; tauto.
Qed.

Lemma interval_row_reads p r1 r2 :
  (forall c, In c (pair_reads p) -> r1 c = r2 c) ->
  forall c, In c (interval_names p) -> interval_row p r1 c = interval_row p r2 c.
Proof.
  intros H c Hc.
  assert (r1 (fst p) = r2 (fst p)) as Ha by (apply H; now left).
  assert (r1 (snd p) = r2 (snd p)) as Hb by (apply H; right; now left).
  unfold interval_names in Hc. unfold interval_row, set_col.
  rewrite Ha, Hb.
  destruct Hc as [<-|[<-|[<-|[<-|[]]]]]; rewrite ?String.eqb_refl;
    repeat match goal with
           | |- context [String.eqb ?x ?y] => destruct (String.eqb x y)
           end; reflexivity.
Qed.

Lemma dimension_pairs_independent :
  independent pair_reads interval_names dimension_pairs = true.
Proof. vm_compute. reflexivity. Qed.

(** The four columns of a pair of the list, from the row they are made of. *)
Lemma interval_row_spec a b r :
  In (a, b) dimension_pairs ->
  let f := feature_name_of a in
  interval_row (a, b) r (f ++ "_interval_min") = r a
  /\ interval_row (a, b) r (f ++ "_interval_max") = fillna (r b) (r a)
  /\ interval_row (a, b) r (f ++ "_center")
     = cell_op Qdiv (cell_op Qplus (r a) (fillna (r b) (r a))) (CNum 2)
  /\ interval_row (a, b) r (f ++ "_width")
     = cell_op Qminus (fillna (r b) (r a)) (r a).
Proof.
  intros H.
  repeat (destruct H as [[= <- <-]|H]; [repeat split; reflexivity|]).
  destruct H.
Qed.

(** The rows after the loop, from the rows before it. *)
Lemma create_dimension_intervals_rows df :
  rows (create_dimension_intervals df)
  = map (run pair_reads interval_names interval_row dimension_pairs (columns df))
        (rows df).
Proof.
  rewrite create_dimension_intervals_fold.
  apply (fold_rows pair_reads interval_names interval_row interval_step
           interval_step_rows interval_step_columns).
Qed.

Lemma create_dimension_intervals_columns df :
  columns (create_dimension_intervals df)
  = run_columns pair_reads interval_names dimension_pairs (columns df).
Proof.
  rewrite create_dimension_intervals_fold.
  apply (fold_columns pair_reads interval_names interval_step
           interval_step_columns).
Qed.

Lemma interval_written df a b r c :
  In (a, b) dimension_pairs ->
  has_column (columns df) a = true -> has_column (columns df) b = true ->
  In c (interval_names (a, b)) ->
  run pair_reads interval_names interval_row dimension_pairs (columns df) r c
  = interval_row (a, b) r c
  /\ has_column (columns (create_dimension_intervals df)) c = true.
Proof.
  intros Hin Ha Hb Hc. rewrite create_dimension_intervals_columns.
  apply (run_written pair_reads interval_names interval_row
           interval_row_other interval_row_reads);
    [apply dimension_pairs_independent | exact Hin | | exact Hc].
  rewrite taken_pair, Ha, Hb. reflexivity.
Qed.

(** What a row of the result holds for a pair of columns, from the row of
    the table it comes from. *)
Definition interval_of (min_col max_col : string) (r e : row) : Prop :=
  let f := feature_name_of min_col in
  match r min_col, r max_col with
  | CNum lo, CNum hi =>
    e (f ++ "_interval_min") = CNum lo
    /\ e (f ++ "_interval_max") = CNum hi
    /\ e (f ++ "_center") = CNum ((lo + hi) / 2)%Q
    /\ e (f ++ "_width") = CNum (hi - lo)%Q
  | CNum lo, CNull =>
    e (f ++ "_interval_min") = CNum lo
    /\ e (f ++ "_interval_max") = CNum lo
    /\ e (f ++ "_center") = CNum ((lo + lo) / 2)%Q
    /\ e (f ++ "_width") = CNum (lo - lo)%Q
  | CNull, v =>
    e (f ++ "_interval_min") = CNull
    /\ e (f ++ "_interval_max") = v
    /\ e (f ++ "_center") = CNull
    /\ e (f ++ "_width") = CNull
  | _, _ => True
  end.

End IntervalFacts.
Import IntervalFacts.



(* ===================================================================== *)
(** * The standardized categories and the parsed property columns         *)
(* ===================================================================== *)

Module ColumnFacts.

#[local] Open Scope string_scope.

Definition one (c : string) : list string := [c].

(** ** [standardize_categorical_features] *)

Definition clean_name (cat_feature : string) : list string :=
  [cat_feature ++ "_clean"].

Definition clean_row (cat_feature : string) (r : row) : row :=
  set_col (cat_feature ++ "_clean") (standardize_cell (r cat_feature)) r.

Definition clean_step (df : frame) (cat_feature : string) : frame :=
  if has_column (columns df) cat_feature
  then with_column (cat_feature ++ "_clean")
         (fun r => standardize_cell (r cat_feature)) df
  else df.

Lemma taken_one cols c : taken one cols c = has_column cols c.
Proof. unfold taken, one. cbn [forallb]. apply andb_true_r. Qed.

Lemma clean_step_rows df c :
  rows (clean_step df c)
  = if taken one (columns df) c then map (clean_row c) (rows df) else rows df.
Proof.
  rewrite taken_one. unfold clean_step.
  now destruct (has_column (columns df) c).
Qed.

Lemma clean_step_columns df c :
  columns (clean_step df c)
  = if taken one (columns df) c
    then fold_left add_column (clean_name c) (columns df)
    else columns df.
Proof.
  rewrite taken_one. unfold clean_step.
  now destruct (has_column (columns df) c).
Qed.

Lemma clean_row_other k r c : ~ In c (clean_name k) -> clean_row k r c = r c.
Proof.
  unfold clean_name, clean_row. cbn [In]. intros H.
  apply set_col_other. intros ->. tauto.
Qed.

Lemma clean_row_reads k r1 r2 :
  (forall c, In c (one k) -> r1 c = r2 c) ->
  forall c, In c (clean_name k) -> clean_row k r1 c = clean_row k r2 c.
Proof.
  intros H c [<-|[]]. unfold clean_row. rewrite !set_col_same.
  f_equal. apply H. now left.
Qed.

Lemma categorical_features_independent :
  independent one clean_name categorical_features = true.
Proof. vm_compute. reflexivity. Qed.

Lemma standardize_rows df :
  rows (standardize_categorical_features df)
  = map (run one clean_name clean_row categorical_features (columns df))
        (rows df).
Proof.
  apply (fold_rows one clean_name clean_row clean_step
           clean_step_rows clean_step_columns).
Qed.

Lemma standardize_columns df :
  columns (standardize_categorical_features df)
  = run_columns one clean_name categorical_features (columns df).
Proof.
  apply (fold_columns one clean_name clean_step clean_step_columns).
Qed.

(** ** [parse_range_strings] *)

Definition parsed_names (prop : string) : list string :=
  [min_col prop; max_col prop; mid_col prop].

Definition parsed_row (prop : string) (r : row) : row :=
  let x := parse_single_range (text (r prop)) in
  set_col (mid_col prop) (float_cell (snd x))
    (set_col (max_col prop) (float_cell (snd (fst x)))
       (set_col (min_col prop) (float_cell (fst (fst x))) r)).

Definition parse_step (df_work : frame) (prop : string) : frame :=
  if has_column (columns df_work) prop
  then parse_property df_work prop
  else df_work.

Lemma parse_step_rows df p :
  rows (parse_step df p)
  = if taken one (columns df) p then map (parsed_row p) (rows df) else rows df.
Proof.
  rewrite taken_one. unfold parse_step.
  now destruct (has_column (columns df) p).
Qed.

Lemma parse_step_columns df p :
  columns (parse_step df p)
  = if taken one (columns df) p
    then fold_left add_column (parsed_names p) (columns df)
    else columns df.
Proof.
  rewrite taken_one. unfold parse_step.
  now destruct (has_column (columns df) p).
Qed.

Lemma parsed_row_other k r c : ~ In c (parsed_names k) -> parsed_row k r c = r c.
Proof.
  unfold parsed_names, parsed_row. cbn [In]. intros H.
  rewrite !set_col_other; [reflexivity|..]; intros ->; tauto.
Qed.

Lemma parsed_row_reads k r1 r2 :
  (forall c, In c (one k) -> r1 c = r2 c) ->
  forall c, In c (parsed_names k) -> parsed_row k r1 c = parsed_row k r2 c.
Proof.
  intros H c Hc.
  assert (r1 k = r2 k) as E by (apply H; now left).
  unfold parsed_names in Hc. unfold parsed_row, set_col. rewrite E.
  destruct Hc as [<-|[<-|[<-|[]]]]; rewrite ?String.eqb_refl;
    repeat match goal with
           | |- context [String.eqb ?x ?y] => destruct (String.eqb x y)
           end; reflexivity.
Qed.

Lemma properties_independent :
  independent one parsed_names properties_to_parse = true.
Proof. vm_compute. reflexivity. Qed.

Lemma parsed_row_spec prop r :
  In prop properties_to_parse ->
  parsed_row prop r (min_col prop)
  = float_cell (fst (fst (parse_single_range (text (r prop)))))
  /\ parsed_row prop r (max_col prop)
     = float_cell (snd (fst (parse_single_range (text (r prop)))))
  /\ parsed_row prop r (mid_col prop)
     = float_cell (snd (parse_single_range (text (r prop)))).
Proof.
  intros H.
  repeat (destruct H as [<-|H]; [repeat split; reflexivity|]).
  destruct H.
Qed.

Lemma parse_range_strings_rows df :
  rows (parse_range_strings df)
  = map (run one parsed_names parsed_row properties_to_parse (columns df))
        (rows df).
Proof.
  apply (fold_rows one parsed_names parsed_row parse_step
           parse_step_rows parse_step_columns).
Qed.

Lemma parse_range_strings_columns df :
  columns (parse_range_strings df)
  = run_columns one parsed_names properties_to_parse (columns df).
Proof.
  apply (fold_columns one parsed_names parse_step parse_step_columns).
Qed.

Lemma num_float_cell o : num (float_cell o) = o.
Proof. now destruct o. Qed.

(** What a row of the result holds for a categorical feature and for a
    property, from the row of the table it comes from. *)
Definition standardized (cat_feature : string) (r e : row) : Prop :=
  match r cat_feature with
  | CNull => e (cat_feature ++ "_clean") = CStr (py "UNKNOWN")
  | CStr s => e (cat_feature ++ "_clean") = CStr (upper (strip s))
  | CNum _ => True
  end.

Definition parsed_from (prop : string) (r e : row) : Prop :=
  match r prop with
  | CStr s =>
    (num (e (min_col prop)), num (e (max_col prop)), num (e (mid_col prop)))
    = parse_single_range (Some s)
  | CNull =>
    e (min_col prop) = CNull /\ e (max_col prop) = CNull
    /\ e (mid_col prop) = CNull
  | CNum _ => True
  end.

End ColumnFacts.
Import ColumnFacts.





(* ===================================================================== *)
(** * The property columns that are kept                                  *)
(* ===================================================================== *)

Module CoverageFacts.

#[local] Open Scope string_scope.

(** The coverage test on the two counts, without the division. *)
Definition enough (df : frame) (feature : string) : bool :=
  let total_with_ref := count_notna df "Grade/Material" in
  (0 <? total_with_ref)%nat
  && (total_with_ref <=? 10 * count_notna df feature)%nat.

Lemma coverage_test non_null_count total_with_ref :
  Qle_bool min_coverage (coverage_of non_null_count total_with_ref)
  = (0 <? total_with_ref)%nat && (total_with_ref <=? 10 * non_null_count)%nat.
Proof.
  unfold coverage_of, min_coverage.
  destruct (Nat.ltb_spec 0 total_with_ref) as [Hpos|Hz]; [|reflexivity].
  cbn [andb]. apply eq_true_iff_eq. rewrite Qle_bool_iff, Nat.leb_le.
  set (n := inject_Z (Z.of_nat non_null_count)).
  set (t := inject_Z (Z.of_nat total_with_ref)).
  assert (0 < t)%Q as Ht.
  { subst t. rewrite <- (Zlt_Qlt 0). lia. }
  assert ((10 <= n / t * 100)%Q <-> (10 * t <= 100 * n)%Q) as ->.
  { split; intros H.
    - assert (n / t * 100 * t == 100 * n)%Q as <- by (field; lra).
      apply Qmult_le_compat_r; [exact H | lra].
    - assert (n / t * 100 == (100 * n) / t)%Q as -> by (field; lra).
      now apply Qle_shift_div_l. }
  subst n t.
  change 10%Q with (inject_Z 10). change 100%Q with (inject_Z 100).
  rewrite <- !inject_Z_mult, <- Zle_Qle. lia.
Qed.

Definition prepare_step (total_with_ref : nat) (df : frame) (feature : string)
    : frame :=
  if has_column (columns df) feature then
    if Qle_bool min_coverage
         (coverage_of (count_notna df feature) total_with_ref)
    then df
    else drop_column feature df
  else df.

Lemma filter_absent cols f :
  has_column cols f = false ->
  List.filter (fun c => negb (String.eqb c f)) cols = cols.
Proof.
  induction cols as [|x cols IH]; [reflexivity|].
  cbn [has_column existsb List.filter]. rewrite orb_false_iff. intros [H1 H2].
  rewrite String.eqb_sym, H1. cbn [negb]. f_equal. now apply IH.
Qed.

Lemma filter_filter {A} (p q : A -> bool) (l : list A) :
  List.filter p (List.filter q l) = List.filter (fun x => q x && p x) l.
Proof.
  induction l as [|x l IH]; [reflexivity|]. cbn [List.filter].
  destruct (q x); cbn [List.filter andb]; [destruct (p x)|]; now rewrite IH.
Qed.

Lemma fold_prepare df0 L df :
  rows df = rows df0 ->
  rows (fold_left (prepare_step (count_notna df0 "Grade/Material")) L df)
  = rows df0
  /\ columns (fold_left (prepare_step (count_notna df0 "Grade/Material")) L df)
     = List.filter
         (fun c => forallb (fun f => negb (String.eqb c f) || enough df0 f) L)
         (columns df).
Proof.
  revert df. induction L as [|f L IH]; intros df Hrows; cbn [fold_left].
  - split; [exact Hrows|]. cbn [forallb].
    induction (columns df) as [|x l IHl]; [reflexivity|].
    cbn [List.filter]. now f_equal.
  - set (df' := prepare_step _ df f).
    assert (count_notna df f = count_notna df0 f) as Hcount
      by (unfold count_notna; now rewrite Hrows).
    assert (rows df' = rows df0 /\
            columns df' = if enough df0 f then columns df
                          else List.filter (fun c => negb (String.eqb c f))
                                           (columns df)) as [Hr Hc].
    { subst df'. unfold prepare_step. rewrite Hcount, coverage_test.
      fold (enough df0 f).
      destruct (has_column (columns df) f) eqn:Hf, (enough df0 f);
        cbn [drop_column rows columns]; split; auto.
      now rewrite filter_absent. }
    destruct (IH df' Hr) as [IHr IHc]. split; [exact IHr|].
    rewrite IHc, Hc. cbn [forallb].
    destruct (enough df0 f).
    + apply filter_ext. intros c. now rewrite orb_true_r.
    + rewrite filter_filter. apply filter_ext. intros c.
      now rewrite orb_false_r.
Qed.

Lemma forallb_keep (keep : string -> bool) L c :
  forallb (fun f => negb (String.eqb c f) || keep f) L
  = negb (has_column L c) || keep c.
Proof.
  induction L as [|f L IH]; [reflexivity|].
  cbn [forallb has_column existsb]. rewrite IH.
  fold (has_column L c).
  destruct (String.eqb_spec c f) as [->|_]; cbn [negb orb andb];
    [|reflexivity].
  destruct (keep f), (has_column L f); reflexivity.
Qed.

Lemma prepare_rows df : rows (prepare_grade_properties df) = rows df.
Proof. exact (proj1 (fold_prepare df all_property_features df eq_refl)). Qed.

Lemma prepare_columns df :
  columns (prepare_grade_properties df)
  = List.filter
      (fun c => negb (has_column all_property_features c) || enough df c)
      (columns df).
Proof.
  etransitivity;
    [exact (proj2 (fold_prepare df all_property_features df eq_refl))|].
  apply filter_ext. intros c. apply forallb_keep.
Qed.

End CoverageFacts.
Import CoverageFacts.


(* ===================================================================== *)
(** * The two directions of a pair                                        *)
(* ===================================================================== *)

Module SymmetryFacts.

#[local] Open Scope Q_scope.

Lemma Qsum_compat l1 l2 : Forall2 Qeq l1 l2 -> Qsum l1 == Qsum l2.
Proof.
  induction 1 as [|x y l1 l2 E _ IH]; [reflexivity|].
  cbn [Qsum fold_right]. fold (Qsum l1). fold (Qsum l2). now rewrite E, IH.
Qed.

Lemma mean_or_zero_compat l1 l2 :
  Forall2 Qeq l1 l2 -> mean_or_zero l1 == mean_or_zero l2.
Proof.
  intros H. pose proof (Forall2_length _ _ _ H) as Hlen.
  pose proof (Qsum_compat _ _ H) as Hsum.
  destruct H as [|x y l1 l2 E H]; [reflexivity|].
  unfold mean_or_zero, mean. now rewrite Hsum, Hlen.
Qed.

Lemma flat_map_Forall2 {A B} (R : B -> B -> Prop) (f g : A -> list B) l :
  (forall x, Forall2 R (f x) (g x)) -> Forall2 R (flat_map f l) (flat_map g l).
Proof.
  intros H. induction l as [|x l IH]; cbn [flat_map]; [constructor|].
  apply Forall2_app; [apply H | exact IH].
Qed.

Lemma categorical_match_sym v1 v2 :
  categorical_match v1 v2 = categorical_match v2 v1.
Proof.
  unfold categorical_match. rewrite (orb_comm (isna v1)).
  destruct (isna v2 || isna v1); [reflexivity|].
  destruct (cell_eq v1 v2) eqn:E1, (cell_eq v2 v1) eqn:E2; try reflexivity.
  - apply cell_eq_sym in E1. congruence.
  - apply cell_eq_sym in E2. congruence.
Qed.

Lemma cell_eq_comm v1 v2 : cell_eq v1 v2 = cell_eq v2 v1.
Proof.
  destruct (cell_eq v1 v2) eqn:E1, (cell_eq v2 v1) eqn:E2; try reflexivity.
  - apply cell_eq_sym in E1. congruence.
  - apply cell_eq_sym in E2. congruence.
Qed.

Lemma dimension_similarity_sym index row1 row2 feats :
  calculate_dimension_similarity index row1 row2 feats
  == calculate_dimension_similarity index row2 row1 feats.
Proof.
  unfold calculate_dimension_similarity. apply mean_or_zero_compat.
  apply flat_map_Forall2. intros [a b].
  destruct (has_column index a && has_column index b); constructor;
    [apply interval_overlap_ratio_sym | constructor].
Qed.

Lemma categorical_similarity_sym index row1 row2 feats :
  calculate_categorical_similarity index row1 row2 feats
  == calculate_categorical_similarity index row2 row1 feats.
Proof.
  unfold calculate_categorical_similarity. apply mean_or_zero_compat.
  apply flat_map_Forall2. intros c.
  destruct (has_column index c); constructor; [|constructor].
  now rewrite categorical_match_sym.
Qed.

Lemma property_similarity_sym index row1 row2 feats df :
  calculate_grade_property_similarity index row1 row2 feats df
  == calculate_grade_property_similarity index row2 row1 feats df.
Proof.
  unfold calculate_grade_property_similarity. apply mean_or_zero_compat.
  apply flat_map_Forall2. intros c.
  destruct (has_column index c); [|constructor].
  destruct (num (row1 c)) as [v1|], (num (row2 c)) as [v2|]; try constructor.
  destruct (column_max df c) as [hi|]; [|constructor].
  destruct (column_min df c) as [lo|]; [|constructor].
  cbv zeta. destruct (Qltb 0 (hi - lo)); constructor; [|constructor].
  now rewrite (Qabs_Qminus v1 v2).
Qed.

End SymmetryFacts.
Import SymmetryFacts.


(* ===================================================================== *)
(** * The length dimension                                                *)
(* ===================================================================== *)

(** The pair of the length is [('length_min', 'length_min')]: its interval
    is a point in every row, and a point overlaps nothing. *)
Module LengthFacts.

#[local] Open Scope string_scope.

Lemma fillna_same v : fillna v v = v.
Proof. now destruct v. Qed.

Lemma has_column_filter (p : string -> bool) cols c :
  has_column (List.filter p cols) c = has_column cols c && p c.
Proof.
  apply eq_true_iff_eq.
  rewrite andb_true_iff, !has_column_In, filter_In. tauto.
Qed.

(** The rows and the columns of the feature table, stage by stage. *)
Lemma engineer_rows df :
  rows (engineer_similarity_features df)
  = map (fun r =>
           run one clean_name clean_row categorical_features
               (columns (create_dimension_intervals df))
               (run pair_reads interval_names interval_row dimension_pairs
                    (columns df) r))
        (rows df).
Proof.
  unfold engineer_similarity_features.
  rewrite prepare_rows, standardize_rows, create_dimension_intervals_rows, map_map.
  reflexivity.
Qed.

Lemma engineer_has_column df c :
  has_column all_property_features c = false ->
  has_column (columns (create_dimension_intervals df)) c = true ->
  has_column (columns (engineer_similarity_features df)) c = true.
Proof.
  intros Hc H. unfold engineer_similarity_features.
  rewrite prepare_columns, has_column_filter, Hc. cbn [negb orb].
  rewrite andb_true_r, standardize_columns. now apply run_columns_keeps.
Qed.

Lemma length_point df e :
  has_column (columns df) "length_min" = true ->
  In e (rows (engineer_similarity_features df)) ->
  e "length_interval_max" = e "length_interval_min".
Proof.
  intros Hc He. rewrite engineer_rows in He.
  apply in_map_iff in He as (r & <- & _).
  rewrite !(run_other one clean_name clean_row clean_row_other)
    by (apply has_column_not_In; vm_compute; reflexivity).
  rewrite (proj1 (interval_written df "length_min" "length_min" r
                    "length_interval_max" ltac:(cbn; tauto) Hc Hc
                    ltac:(cbn; tauto))).
  rewrite (proj1 (interval_written df "length_min" "length_min" r
                    "length_interval_min" ltac:(cbn; tauto) Hc Hc
                    ltac:(cbn; tauto))).
  destruct (interval_row_spec "length_min" "length_min" r ltac:(cbn; tauto))
    as (E1 & E2 & _).
  cbv zeta in E1, E2.
  change (feature_name_of "length_min" ++ "_interval_min")
    with "length_interval_min" in E1.
  change (feature_name_of "length_min" ++ "_interval_max")
    with "length_interval_max" in E2.
  rewrite E1, E2. apply fillna_same.
Qed.

Lemma length_columns df c :
  has_column (columns df) "length_min" = true ->
  In c ["length_interval_min"; "length_interval_max"] ->
  has_column (columns (engineer_similarity_features df)) c = true.
Proof.
  intros Hc Hin. apply engineer_has_column.
  - destruct Hin as [<-|[<-|[]]]; vm_compute; reflexivity.
  - apply (interval_written df "length_min" "length_min" (fun _ => CNull) c);
      [cbn; tauto | exact Hc | exact Hc |].
    destruct Hin as [<-|[<-|[]]]; cbn; tauto.
Qed.

#[local] Open Scope Q_scope.

(** A list of scores with a 0 in it. *)
Lemma Qsum_with_zero l x :
  Forall in_unit l -> In x l -> x == 0 ->
  Qsum l <= inject_Z (Z.of_nat (length l)) - 1.
Proof.
  intros H Hin Hx. induction H as [|y l Hy Hl IH]; [destruct Hin|].
  cbn [Qsum fold_right length]. fold (Qsum l).
  rewrite Nat2Z.inj_succ. unfold Z.succ. rewrite inject_Z_plus.
  change (inject_Z 1) with 1.
  destruct Hin as [->|Hin].
  - pose proof (Qsum_bounds l Hl). rewrite Hx. lra.
  - specialize (IH Hin). destruct Hy. lra.
Qed.

Lemma mean_with_zero l x (n : nat) :
  Forall in_unit l -> In x l -> x == 0 -> (length l <= n)%nat -> (0 < n)%nat ->
  mean_or_zero l <= 1 - 1 / inject_Z (Z.of_nat n).
Proof.
  intros H Hin Hx Hlen Hn.
  pose proof (Qsum_with_zero l x H Hin Hx) as Hs.
  destruct l as [|y l]; [destruct Hin|].
  unfold mean_or_zero, mean.
  set (k := inject_Z (Z.of_nat (length (y :: l)))) in *.
  set (m := inject_Z (Z.of_nat n)).
  assert (1 <= k) as Hk.
  { subst k. change 1 with (inject_Z 1). rewrite <- Zle_Qle. cbn [length]. lia. }
  assert (k <= m) as Hm.
  { subst k m. rewrite <- Zle_Qle. lia. }
  apply Qle_shift_div_r; [lra|].
  assert ((1 - 1 / m) * k == k - k / m) as -> by (field; lra).
  assert (k / m <= 1) by (apply Qle_shift_div_r; lra).
  lra.
Qed.

End LengthFacts.
Import LengthFacts.



(* ===================================================================== *)
(** * The pipeline from the loaded tables to the result                   *)
(* ===================================================================== *)

Module PipelineFacts.

#[local] Open Scope string_scope.

(** The columns the stages set. *)
Definition derived_columns : list string :=
  ["grade_clean"; "grade_mapped"]
  ++ flat_map parsed_names properties_to_parse
  ++ flat_map interval_names dimension_pairs
  ++ flat_map clean_name categorical_features.

(** A row of the feature table that has the values of a request in the
    columns of the RFQ table that no stage sets. *)
Definition same_request (rfq_df : frame) (r e : row) : Prop :=
  forall c, has_column (columns rfq_df) c = true ->
            ~ In c derived_columns -> e c = r c.

(** ** [normalize_grades]: one row per request *)

Lemma normalize_rows ratio set_iter rfq_df reference_df enriched grade_mapping :
  normalize_grades ratio set_iter rfq_df reference_df
  = Ok (enriched, grade_mapping) ->
  exists G : row -> row,
    rows enriched = map G (rows rfq_df)
    /\ forall r c, has_column (columns rfq_df) c = true ->
         c <> "grade_clean" -> c <> "grade_mapped" -> G r c = r c.
Proof.
  intros Hrun.
  destruct (normalize_grades_returned _ _ _ _ _ _ Hrun) as [_ ->]. clear Hrun.
  set (rfq_work := with_column "grade_clean" _ rfq_df).
  set (ref_clean := deduplicate_reference_data _).
  unfold enriched_table. cbn [rows].
  set (left := with_column "grade_mapped" _ rfq_work).
  destruct (dedup_keys (with_column "grade_clean"
              (fun r => clean_cell (r "Grade/Material")) reference_df))
    as [Hnd Hkeys]. fold ref_clean in Hnd, Hkeys.
  rewrite merge_left_map
    by (intros l _; apply (unique_match _ _ Hnd Hkeys)).
  assert (forall c, has_column (columns rfq_df) c = true ->
                    has_column (columns left) c = true) as Hcols.
  { intros c Hc. subst left rfq_work. now rewrite !has_column_with, Hc. }
  assert (rows left
          = map (fun r =>
                   set_col "grade_mapped"
                     (map_grade grade_mapping
                        (set_col "grade_clean" (clean_cell (r "grade")) r
                                 "grade_clean"))
                     (set_col "grade_clean" (clean_cell (r "grade")) r))
                (rows rfq_df)) as EL.
  { subst left rfq_work. cbn [with_column rows]. now rewrite map_map. }
  rewrite EL, map_map.
  eexists. split; [reflexivity|].
  intros r c Hc N1 N2. cbv beta. unfold merge_row.
  rewrite (Hcols c Hc). now rewrite !set_col_other.
Qed.

(** ** The feature table, row by row *)

Lemma feature_table_rows ratio set_iter rfq_df reference_df feature_df :
  feature_table ratio set_iter rfq_df reference_df = Ok feature_df ->
  exists G : row -> row,
    rows feature_df = map G (rows rfq_df)
    /\ forall r c, has_column (columns rfq_df) c = true ->
         ~ In c derived_columns -> G r c = r c.
Proof.
  unfold feature_table.
  destruct (normalize_grades ratio set_iter rfq_df reference_df)
    as [[enriched grade_mapping]|e] eqn:Hrun; [|discriminate].
  intros [= <-].
  destruct (normalize_rows _ _ _ _ _ _ Hrun) as (G & EG & HG).
  rewrite engineer_rows, parse_range_strings_rows, EG, !map_map.
  eexists. split; [reflexivity|].
  intros r c Hc Hd. cbv beta.
  unfold derived_columns in Hd. rewrite !in_app_iff in Hd.
  rewrite (run_other one clean_name clean_row clean_row_other) by tauto.
  rewrite (run_other pair_reads interval_names interval_row interval_row_other)
    by tauto.
  rewrite (run_other one parsed_names parsed_row parsed_row_other) by tauto.
  apply HG; [exact Hc|..]; intros ->; apply Hd; left; cbn; tauto.
Qed.

(** ** Positions in a filtered list *)

Lemma filter_lookup {A} (P : A -> bool) (l : list A) k x :
  List.filter P l !! k = Some x -> exists i, l !! i = Some x /\ P x = true.
Proof.
  revert k. induction l as [|a l IH]; intros k H; [destruct k; discriminate|].
  cbn [List.filter] in H. destruct (P a) eqn:Pa.
  - destruct k as [|k]; cbn in H.
    + injection H as <-. exists 0%nat. now split.
    + destruct (IH _ H) as (i & Hi & Hp). exists (S i). now split.
  - destruct (IH _ H) as (i & Hi & Hp). exists (S i). now split.
Qed.

Lemma filter_lookup_lt {A} (P : A -> bool) (l : list A) k1 k2 x y :
  (k1 < k2)%nat ->
  List.filter P l !! k1 = Some x -> List.filter P l !! k2 = Some y ->
  exists i1 i2, (i1 < i2)%nat /\ l !! i1 = Some x /\ l !! i2 = Some y.
Proof.
  revert k1 k2. induction l as [|a l IH]; intros k1 k2 Hlt H1 H2;
    [destruct k1; discriminate|].
  cbn [List.filter] in H1, H2. destruct (P a).
  - destruct k2 as [|k2]; [lia|]. cbn in H2. destruct k1 as [|k1]; cbn in H1.
    + injection H1 as <-. destruct (filter_lookup P l k2 y H2) as (i & Hi & _).
      exists 0%nat, (S i). repeat split; [lia | exact Hi].
    + destruct (IH k1 k2 ltac:(lia) H1 H2) as (i1 & i2 & L & E1 & E2).
      exists (S i1), (S i2). repeat split; [lia | exact E1 | exact E2].
  - destruct (IH k1 k2 Hlt H1 H2) as (i1 & i2 & L & E1 & E2).
    exists (S i1), (S i2). repeat split; [lia | exact E1 | exact E2].
Qed.

Lemma filter_lookup_ne {A} (P : A -> bool) (l : list A) k1 k2 x y :
  k1 <> k2 ->
  List.filter P l !! k1 = Some x -> List.filter P l !! k2 = Some y ->
  exists i1 i2, i1 <> i2 /\ l !! i1 = Some x /\ l !! i2 = Some y.
Proof.
  intros Hne H1 H2. destruct (Nat.lt_total k1 k2) as [L|[E|L]]; [|tauto|].
  - destruct (filter_lookup_lt P l k1 k2 x y L H1 H2) as (i1 & i2 & ? & ? & ?).
    exists i1, i2. repeat split; [lia | assumption..].
  - destruct (filter_lookup_lt P l k2 k1 y x L H2 H1) as (i2 & i1 & ? & ? & ?).
    exists i1, i2. repeat split; [lia | assumption..].
Qed.

(** ** The size of the result *)

Lemma flat_map_length_le {A B} (f : A -> list B) (l : list A) (n : nat) :
  (forall x, length (f x) <= n)%nat ->
  (length (flat_map f l) <= n * length l)%nat.
Proof.
  intros H. induction l as [|x l IH]; cbn [flat_map length]; [lia|].
  rewrite length_app. specialize (H x). lia.
Qed.

Lemma results_length df :
  (length (similarity_results_of df) <= 3 * length (rows df))%nat.
Proof.
  rewrite similarity_results_flat.
  etransitivity; [apply (flat_map_length_le _ _ 3)|].
  - intros idx1. unfold rows_of_source.
    destruct (valid_rows df !! idx1); [|cbn; lia].
    rewrite top3_of_take, length_take. lia.
  - rewrite length_seq. unfold valid_rows.
    apply Nat.mul_le_mono_l, filter_length_le.
Qed.

(** ** The sample tables through the stages *)

(** The feature table of the sample requests and the sample reference table,
    in the run of [one_order] with a ratio that is always 1, and the result
    of the similarity stage on it. *)
Definition sample_features : frame :=
  match feature_table (fun _ _ => 1%Q) one_order rfq_table ref_table with
  | Ok feature_df => feature_df
  | Raise _ => {| columns := []; rows := [] |}
  end.

Definition sample_results : list result := similarity_results_of sample_features.

Definition returns {A} (r : res A) : bool :=
  match r with
  | Ok _ => true
  | Raise _ => false
  end.

Lemma sample_features_built :
  feature_table (fun _ _ => 1%Q) one_order rfq_table ref_table
  = Ok sample_features.
Proof.
  assert (returns (feature_table (fun _ _ => 1%Q) one_order rfq_table ref_table)
          = true) as H by (vm_compute; reflexivity).
  unfold sample_features.
  destruct (feature_table (fun _ _ => 1%Q) one_order rfq_table ref_table);
    [reflexivity | discriminate].
Defined.

Lemma sample_results_returned :
  calculate_rfq_similarity sample_features = Returned sample_results.
Proof.
  assert (match sample_results with [] => false | _ :: _ => true end = true)
    as H by (vm_compute; reflexivity).
  unfold calculate_rfq_similarity. fold sample_results.
  destruct sample_results; [discriminate | reflexivity].
Defined.

End PipelineFacts.
Import PipelineFacts.





